(** * HistoryModal: filtering, sorting and edit quota of the maintenance history

    A shallow embedding of [src/components/HistoryModal.tsx]: the derived
    history of the component ([processedHistory], [filteredHistory],
    [sortedHistory]), its state transitions ([handleSort], the clear-filters
    button, the edit button) and the arrays these computations allocate and
    update in place.

    JavaScript values are modelled as follows.
    - A [string] is a Rocq [string]; [===] is [String.eqb] and [<] on two
      strings is the lexicographic order on character codes.
    - A [number] that the component only uses as an integer ([editCount],
      [overdueDays], time values in milliseconds) is a [Z]; a number that may
      be [NaN] is an [option Z] with [None] for [NaN].
    - [new Date(s)] is its time value, [Date_parse s : option Z]. *)

From Stdlib Require Import ZArith List String Ascii Bool Lia Permutation Sorted.
Import ListNotations.

Local Open Scope string_scope.
Local Open Scope list_scope.
Local Open Scope Z_scope.

(* ================================================================== *)
(** ** Data model *)
(* ================================================================== *)

(** The two values of [status]: ['Đúng hạn'] (on time) and ['Quá hạn']
    (overdue), the literal the component compares with. *)
Inductive Status : Set :=
| OnTime
| Overdue.

Definition Status_eqb (a b : Status) : bool :=
  match a, b with
  | OnTime, OnTime | Overdue, Overdue => true
  | _, _ => false
  end.

(** Modelled from the spec: [types.ts] is not part of the sources.  The
    record has the fields of [HistoryEntryWithStatus] that the component
    reads. *)
Record HistoryEntryWithStatus : Set := mkEntry {
  id : string;
  workshopId : string;
  workshopName : string;
  equipmentName : string;
  taskName : string;
  maintenanceDate : string;
  notes : option string;
  editCount : Z;
  status : Status;
  overdueDays : Z
}.

(** [type SortKey] and [type SortDirection]. *)
Inductive SortKey : Set :=
| KWorkshopName
| KEquipmentName
| KTaskName
| KMaintenanceDate
| KStatus.

Inductive SortDirection : Set :=
| asc
| desc.

(** [userRole: 'editor' | 'viewer']. *)
Inductive UserRole : Set :=
| editor
| viewer.

(** The state hooks of the component, in the order they are declared. *)
Record ViewState : Set := mkView {
  editingEntry : option HistoryEntryWithStatus;
  sortKey : SortKey;
  sortDirection : SortDirection;
  startDate : string;
  endDate : string;
  selectedWorkshop : string
}.

Definition initialState : ViewState :=
  {| editingEntry := None;
     sortKey := KMaintenanceDate;
     sortDirection := desc;
     startDate := "";
     endDate := "";
     selectedWorkshop := "all" |}.

(* ================================================================== *)
(** ** Dates *)
(* ================================================================== *)

(** A time value is a number of milliseconds since the epoch, [None] for
    the [NaN] of an invalid date. *)
Definition TimeValue := option Z.

Definition msPerDay : Z := 86400000.

(** [a < b] and [a > b] on two dates: the time values are compared, and a
    comparison with [NaN] is false. *)
Definition Date_lt (a b : TimeValue) : bool :=
  match a, b with
  | Some x, Some y => x <? y
  | _, _ => false
  end.

Definition Date_gt (a b : TimeValue) : bool :=
  match a, b with
  | Some x, Some y => y <? x
  | _, _ => false
  end.

(** The UTC calendar day a time value falls on. *)
Definition Day (t : Z) : Z := t / msPerDay.

(** *** The ECMAScript date-time string format

    [Date_parse_iso] reads the forms of the format whose value does not
    depend on the host: [YYYY-MM-DD] (midnight UTC) and
    [YYYY-MM-DDTHH:mm], [YYYY-MM-DDTHH:mm:ss], [YYYY-MM-DDTHH:mm:ss.sss]
    followed by [Z].  It is the parser of the concrete examples; the
    theorems hold for every parser. *)

Definition digit (c : ascii) : option Z :=
  let n := Z.of_nat (nat_of_ascii c) in
  if (48 <=? n) && (n <=? 57) then Some (n - 48) else None.

Fixpoint digits_acc (acc : Z) (cs : list ascii) : option Z :=
  match cs with
  | [] => Some acc
  | c :: cs' =>
      match digit c with
      | Some d => digits_acc (10 * acc + d) cs'
      | None => None
      end
  end.

Definition digits (cs : list ascii) : option Z :=
  match cs with
  | [] => None
  | _ => digits_acc 0 cs
  end.

Definition InLeapYear (y : Z) : bool :=
  ((y mod 4 =? 0) && negb (y mod 100 =? 0)) || (y mod 400 =? 0).

Definition DayFromYear (y : Z) : Z :=
  365 * (y - 1970) + (y - 1969) / 4 - (y - 1901) / 100 + (y - 1601) / 400.

Definition DaysInMonth (y m : Z) : Z :=
  match m with
  | 1 | 3 | 5 | 7 | 8 | 10 | 12 => 31
  | 4 | 6 | 9 | 11 => 30
  | 2 => if InLeapYear y then 29 else 28
  | _ => 0
  end.

(** Days of the year before month [m] (1-based). *)
Fixpoint DaysBeforeMonth_aux (y : Z) (n : nat) : Z :=
  match n with
  | O => 0
  | S n' => DaysBeforeMonth_aux y n' + DaysInMonth y (Z.of_nat n)
  end.

Definition DaysBeforeMonth (y m : Z) : Z :=
  DaysBeforeMonth_aux y (Z.to_nat (m - 1)).

Definition MakeDay (y m d : Z) : option Z :=
  if (1 <=? m) && (m <=? 12) && (1 <=? d) && (d <=? DaysInMonth y m)
  then Some (DayFromYear y + DaysBeforeMonth y m + (d - 1))
  else None.

Definition MakeTime (h mi s ms : Z) : option Z :=
  if (h <=? 23) && (mi <=? 59) && (s <=? 59)
  then Some (h * 3600000 + mi * 60000 + s * 1000 + ms)
  else None.

Definition MakeDate (day time : option Z) : TimeValue :=
  match day, time with
  | Some d, Some t => Some (d * msPerDay + t)
  | _, _ => None
  end.

Definition parse_date (cs : list ascii) : option Z :=
  match cs with
  | [y1; y2; y3; y4; "-"%char; m1; m2; "-"%char; d1; d2] =>
      match digits [y1; y2; y3; y4], digits [m1; m2], digits [d1; d2] with
      | Some y, Some m, Some d => MakeDay y m d
      | _, _, _ => None
      end
  | _ => None
  end.

Definition parse_time (cs : list ascii) : option Z :=
  match cs with
  | [h1; h2; ":"%char; m1; m2; "Z"%char] =>
      match digits [h1; h2], digits [m1; m2] with
      | Some h, Some mi => MakeTime h mi 0 0
      | _, _ => None
      end
  | [h1; h2; ":"%char; m1; m2; ":"%char; s1; s2; "Z"%char] =>
      match digits [h1; h2], digits [m1; m2], digits [s1; s2] with
      | Some h, Some mi, Some s => MakeTime h mi s 0
      | _, _, _ => None
      end
  | [h1; h2; ":"%char; m1; m2; ":"%char; s1; s2; "."%char; f1; f2; f3; "Z"%char] =>
      match digits [h1; h2], digits [m1; m2], digits [s1; s2], digits [f1; f2; f3] with
      | Some h, Some mi, Some s, Some ms => MakeTime h mi s ms
      | _, _, _, _ => None
      end
  | _ => None
  end.

Definition Date_parse_iso (s : string) : TimeValue :=
  let cs := list_ascii_of_string s in
  match nth_error cs 10 with
  | None => MakeDate (parse_date cs) (Some 0)
  | Some c =>
      if Ascii.eqb c "T"
      then MakeDate (parse_date (firstn 10 cs)) (parse_time (skipn 11 cs))
      else None
  end.

(* ================================================================== *)
(** ** Arrays *)
(* ================================================================== *)

(** *** [Array.prototype.sort]

    The comparator returns a number; [SortCompare] reads [NaN] as [+0].
    The sort is stable: an element moves behind another one only when the
    comparator says it is greater.  [Array_sort] inserts the elements from
    the last to the first into the sorted rest. *)
Section Sort.
Context {A : Type}.
Variable comparefn : A -> A -> option Z.

Definition SortCompare (x y : A) : Z :=
  match comparefn x y with
  | Some v => v
  | None => 0
  end.

Fixpoint insert (x : A) (l : list A) : list A :=
  match l with
  | [] => [x]
  | y :: l' => if 0 <? SortCompare x y then y :: insert x l' else x :: l
  end.

Fixpoint Array_sort (l : list A) : list A :=
  match l with
  | [] => []
  | x :: l' => insert x (Array_sort l')
  end.
End Sort.

(** What the language asks of the result for a consistent comparator: it is
    in order, and the elements that compare equal to one another ([tied])
    stand in the order they had before the call. *)
Definition tied {A : Type} (comparefn : A -> A -> option Z) (x y : A) : bool :=
  (SortCompare comparefn x y <=? 0) && (SortCompare comparefn y x <=? 0).

Definition StableSorted {A : Type} (comparefn : A -> A -> option Z)
    (l out : list A) : Prop :=
  StronglySorted (fun x y => SortCompare comparefn x y <= 0) out
  /\ forall x, filter (tied comparefn x) out = filter (tied comparefn x) l.

(** *** Arrays in the store

    An array is a mutable object: [filter] and the spread [[...a]] allocate
    a new array, [sort] and [reverse] update the array they are called on
    and return it.  The store maps a reference to the elements of its
    array; a computation threads the store and fails on a reference that
    was never allocated. *)
Definition Ref := nat.
Definition Store := list (list HistoryEntryWithStatus).

Definition M (A : Type) : Type := Store -> option (A * Store).

Definition ret {A : Type} (a : A) : M A := fun h => Some (a, h).

Definition bind {A B : Type} (c : M A) (k : A -> M B) : M B :=
  fun h =>
    match c h with
    | Some (a, h') => k a h'
    | None => None
    end.

Notation "x <- c ;; k" := (bind c (fun x => k))
  (at level 61, c at next level, right associativity).

Definition read (h : Store) (r : Ref) : option (list HistoryEntryWithStatus) :=
  nth_error h r.

Fixpoint write (h : Store) (r : Ref) (a : list HistoryEntryWithStatus) : Store :=
  match h, r with
  | [], _ => []
  | _ :: h', O => a :: h'
  | x :: h', S r' => x :: write h' r' a
  end.

Definition alloc (a : list HistoryEntryWithStatus) : M Ref :=
  fun h => Some (List.length h, h ++ [a]).

Definition get (r : Ref) : M (list HistoryEntryWithStatus) :=
  fun h =>
    match read h r with
    | Some a => Some (a, h)
    | None => None
    end.

Definition put (r : Ref) (a : list HistoryEntryWithStatus) : M unit :=
  fun h =>
    match read h r with
    | Some _ => Some (tt, write h r a)
    | None => None
    end.

(** [a.filter(f)] *)
Definition Array_filter_m (f : HistoryEntryWithStatus -> bool) (r : Ref) : M Ref :=
  a <- get r ;; alloc (filter f a).

(** [[...a]] *)
Definition Array_spread_m (r : Ref) : M Ref :=
  a <- get r ;; alloc a.

(** [a.sort(comparefn)] *)
Definition Array_sort_m
    (comparefn : HistoryEntryWithStatus -> HistoryEntryWithStatus -> option Z)
    (r : Ref) : M Ref :=
  a <- get r ;; _ <- put r (Array_sort comparefn a) ;; ret r.

(** [a.reverse()] *)
Definition Array_reverse_m (r : Ref) : M Ref :=
  a <- get r ;; _ <- put r (rev a) ;; ret r.

(* ================================================================== *)
(** ** The component *)
(* ================================================================== *)

(** A string is truthy when it is not empty. *)
Definition truthy (s : string) : bool := negb (s =? "")%string.

(** [a[sortKey]] where it is compared as a string: the three name columns
    (the date and the status are compared on their own). *)
Definition nameField (k : SortKey) (e : HistoryEntryWithStatus) : string :=
  match k with
  | KWorkshopName => workshopName e
  | KEquipmentName => equipmentName e
  | KTaskName => taskName e
  | KMaintenanceDate => maintenanceDate e
  | KStatus => ""
  end.

Section Component.
(** The host's [Date.parse]. *)
Variable Date_parse : string -> TimeValue.

(** The callback of [processedHistory.filter] (lines 33-60). *)
Definition keepEntry (selectedWorkshop startDate endDate : string)
    (entry : HistoryEntryWithStatus) : bool :=
  if negb (selectedWorkshop =? "all")%string
     && negb (workshopId entry =? selectedWorkshop)%string
  then false
  else if truthy startDate || truthy endDate then
    let entryDate := Date_parse (maintenanceDate entry) in
    if truthy startDate && Date_lt entryDate (Date_parse startDate) then false
    else if truthy endDate && Date_gt entryDate (Date_parse endDate) then false
    else true
  else true.

Definition filteredHistory (processedHistory : list HistoryEntryWithStatus)
    (selectedWorkshop startDate endDate : string) : list HistoryEntryWithStatus :=
  filter (keepEntry selectedWorkshop startDate endDate) processedHistory.

(** [getTime() - getTime()]: [NaN] when one of the dates is invalid. *)
Definition getTime_sub (a b : TimeValue) : option Z :=
  match a, b with
  | Some x, Some y => Some (x - y)
  | _, _ => None
  end.

(** The comparator handed to [sortable.sort] (lines 65-85). *)
Definition compareEntries (sortKey : SortKey)
    (a b : HistoryEntryWithStatus) : option Z :=
  match sortKey with
  | KMaintenanceDate =>
      getTime_sub (Date_parse (maintenanceDate a)) (Date_parse (maintenanceDate b))
  | KStatus =>
      if Status_eqb (status a) Overdue && negb (Status_eqb (status b) Overdue)
      then Some (-1)
      else if negb (Status_eqb (status a) Overdue) && Status_eqb (status b) Overdue
      then Some 1
      else if Status_eqb (status a) Overdue && Status_eqb (status b) Overdue
      then Some (overdueDays b - overdueDays a)
      else Some 0
  | _ =>
      let valA := nameField sortKey a in
      let valB := nameField sortKey b in
      if (valA <? valB)%string then Some (-1)
      else if (valB <? valA)%string then Some 1
      else Some 0
  end.

Definition sortedHistory (filteredHistory : list HistoryEntryWithStatus)
    (sortKey : SortKey) (sortDirection : SortDirection)
    : list HistoryEntryWithStatus :=
  let sortable := Array_sort (compareEntries sortKey) filteredHistory in
  match sortDirection with
  | desc => rev sortable
  | asc => sortable
  end.

(** The rows the table shows in state [st]. *)
Definition rows (processedHistory : list HistoryEntryWithStatus)
    (st : ViewState) : list HistoryEntryWithStatus :=
  sortedHistory
    (filteredHistory processedHistory (selectedWorkshop st) (startDate st) (endDate st))
    (sortKey st) (sortDirection st).

(** The same two computations on the arrays of the store. *)
Definition filteredHistory_m (processedHistory : Ref)
    (selectedWorkshop startDate endDate : string) : M Ref :=
  Array_filter_m (keepEntry selectedWorkshop startDate endDate) processedHistory.

Definition sortedHistory_m (filteredHistory : Ref)
    (sortKey : SortKey) (sortDirection : SortDirection) : M Ref :=
  sortable <- Array_spread_m filteredHistory ;;
  _ <- Array_sort_m (compareEntries sortKey) sortable ;;
  _ <- match sortDirection with
       | desc => Array_reverse_m sortable
       | asc => ret sortable
       end ;;
  ret sortable.

Definition rows_m (processedHistory : Ref) (st : ViewState) : M (Ref * Ref) :=
  filtered <- filteredHistory_m processedHistory
                (selectedWorkshop st) (startDate st) (endDate st) ;;
  sorted <- sortedHistory_m filtered (sortKey st) (sortDirection st) ;;
  ret (filtered, sorted).
End Component.

(** A comparator with the sign of [comparefn] flipped, to compare with. *)
Definition flipped {A : Type} (comparefn : A -> A -> option Z) (x y : A) : option Z :=
  option_map Z.opp (comparefn x y).

(** *** State transitions *)

(** [sortKey === key] *)
Definition SortKey_eqb (a b : SortKey) : bool :=
  match a, b with
  | KWorkshopName, KWorkshopName
  | KEquipmentName, KEquipmentName
  | KTaskName, KTaskName
  | KMaintenanceDate, KMaintenanceDate
  | KStatus, KStatus => true
  | _, _ => false
  end.

Definition setSortDirection (d : SortDirection) (st : ViewState) : ViewState :=
  {| editingEntry := editingEntry st; sortKey := sortKey st; sortDirection := d;
     startDate := startDate st; endDate := endDate st;
     selectedWorkshop := selectedWorkshop st |}.

Definition setSortKey (k : SortKey) (st : ViewState) : ViewState :=
  {| editingEntry := editingEntry st; sortKey := k; sortDirection := sortDirection st;
     startDate := startDate st; endDate := endDate st;
     selectedWorkshop := selectedWorkshop st |}.

Definition setStartDate (s : string) (st : ViewState) : ViewState :=
  {| editingEntry := editingEntry st; sortKey := sortKey st;
     sortDirection := sortDirection st;
     startDate := s; endDate := endDate st;
     selectedWorkshop := selectedWorkshop st |}.

Definition setEndDate (s : string) (st : ViewState) : ViewState :=
  {| editingEntry := editingEntry st; sortKey := sortKey st;
     sortDirection := sortDirection st;
     startDate := startDate st; endDate := s;
     selectedWorkshop := selectedWorkshop st |}.

Definition setSelectedWorkshop (s : string) (st : ViewState) : ViewState :=
  {| editingEntry := editingEntry st; sortKey := sortKey st;
     sortDirection := sortDirection st;
     startDate := startDate st; endDate := endDate st;
     selectedWorkshop := s |}.

Definition setEditingEntry (e : option HistoryEntryWithStatus) (st : ViewState)
    : ViewState :=
  {| editingEntry := e; sortKey := sortKey st;
     sortDirection := sortDirection st;
     startDate := startDate st; endDate := endDate st;
     selectedWorkshop := selectedWorkshop st |}.

(** [handleSort] (lines 93-100). *)
Definition handleSort (key : SortKey) (st : ViewState) : ViewState :=
  if SortKey_eqb (sortKey st) key
  then setSortDirection (match sortDirection st with asc => desc | desc => asc end) st
  else setSortDirection asc (setSortKey key st).

(** The [onClick] of the clear-filters button (lines 173-177). *)
Definition clearFilters (st : ViewState) : ViewState :=
  setSelectedWorkshop "all" (setEndDate "" (setStartDate "" st)).

(** *** The edit button (lines 220-231) *)

Inductive EditTitle : Set :=
| NoEditsLeft                (* "Đã hết lượt chỉnh sửa" *)
| EditsLeft (remaining : Z). (* "Sửa (còn n lượt)" *)

Record EditButton : Set := mkButton {
  disabled : bool;
  title : EditTitle
}.

(** The cell is rendered for an editor only. *)
Definition editCell (userRole : UserRole) (entry : HistoryEntryWithStatus)
    : option EditButton :=
  match userRole with
  | editor =>
      Some {| disabled := 2 <=? editCount entry;
              title := if 2 <=? editCount entry then NoEditsLeft
                       else EditsLeft (2 - editCount entry) |}
  | viewer => None
  end.

(** The edit action is offered when the button is there and not disabled. *)
Definition canEdit (userRole : UserRole) (entry : HistoryEntryWithStatus) : bool :=
  match editCell userRole entry with
  | Some b => negb (disabled b)
  | None => false
  end.

(** A click on the button of a row: a disabled button, or one that is not
    rendered, dispatches nothing. *)
Definition clickEdit (userRole : UserRole) (entry : HistoryEntryWithStatus)
    (st : ViewState) : ViewState :=
  if canEdit userRole entry then setEditingEntry (Some entry) st else st.

(* ================================================================== *)
(** ** The timeliness calculator *)
(* ================================================================== *)

(** Modelled from the spec: [types.ts] is not part of the sources.  A
    workshop with its maintenance interval in days, and a history entry as
    it is stored. *)
Record Workshop : Set := mkWorkshop {
  w_id : string;
  w_name : string;
  w_interval : Z
}.

Record HistoryEntry : Set := mkHistory {
  h_id : string;
  h_workshopId : string;
  h_equipmentName : string;
  h_taskName : string;
  h_maintenanceDate : string;
  h_notes : option string;
  h_editCount : Z
}.

(** Modelled from the spec: section 3 gives a date no time of day.  The
    calendar date of a time value is midnight of the day it falls on. *)
Definition dateOf (t : Z) : Z := Day t * msPerDay.

(** Modelled from the spec: [utils/historyUtils.ts], which defines
    [calculateHistoryTimeliness], is not part of the sources.  Section 3:
    the maintenance date is a calendar date, with no time of day beyond
    the comparison of dates, so dates enter the computation as calendar
    dates ([dateOf]); the reference date [now] is a parameter.  Section
    4.1: the due date is the maintenance date plus the interval, in days;
    when the reference date is after the due date the entry is overdue by
    the floor of the difference in whole days, else it is on time with 0
    days.  An entry whose date is invalid is after nothing. *)
Definition timeliness (maintenance : TimeValue) (interval now : Z) : Status * Z :=
  match maintenance with
  | Some m =>
      let due := dateOf m + interval * msPerDay in
      let reference := dateOf now in
      if due <? reference
      then (Overdue, (reference - due) / msPerDay)
      else (OnTime, 0)
  | None => (OnTime, 0)
  end.

Section Calculator.
Variable Date_parse : string -> TimeValue.
Variable now : Z.

Definition derive (w : Workshop) (h : HistoryEntry) : HistoryEntryWithStatus :=
  let r := timeliness (Date_parse (h_maintenanceDate h)) (w_interval w) now in
  {| id := h_id h;
     workshopId := h_workshopId h;
     workshopName := w_name w;
     equipmentName := h_equipmentName h;
     taskName := h_taskName h;
     maintenanceDate := h_maintenanceDate h;
     notes := h_notes h;
     editCount := h_editCount h;
     status := fst r;
     overdueDays := snd r |}.

(** Modelled from the spec: an entry whose workshop is not in the list is
    left out of the derived history (section 7 leaves the choice open). *)
Definition calculateHistoryTimeliness (history : list HistoryEntry)
    (workshops : list Workshop) : list HistoryEntryWithStatus :=
  flat_map
    (fun h =>
       match find (fun w => (w_id w =? h_workshopId h)%string) workshops with
       | Some w => [derive w h]
       | None => []
       end)
    history.
End Calculator.

(** A calendar date: a time value at midnight UTC. *)
Definition CalendarDate (t : Z) : Prop := t mod msPerDay = 0.

(* ================================================================== *)
(** ** Classes of entries *)
(* ================================================================== *)

(** The classes on which the status comparator returns 0: the on-time
    entries, and the overdue entries with a given number of days. *)
Definition isOverdue (e : HistoryEntryWithStatus) : bool :=
  Status_eqb (status e) Overdue.

Definition isOnTime (e : HistoryEntryWithStatus) : bool :=
  Status_eqb (status e) OnTime.

Definition overdueBy (d : Z) (e : HistoryEntryWithStatus) : bool :=
  isOverdue e && (overdueDays e =? d).

(** The three columns that are compared as strings. *)
Definition isNameKey (k : SortKey) : bool :=
  match k with
  | KWorkshopName | KEquipmentName | KTaskName => true
  | _ => false
  end.

(** Entries by their time value under a parser: those with a valid date,
    the chronological order, and the entries of one time value. *)
Definition validDate (Date_parse : string -> TimeValue)
    (e : HistoryEntryWithStatus) : Prop :=
  Date_parse (maintenanceDate e) <> None.

Definition notLater (Date_parse : string -> TimeValue)
    (a b : HistoryEntryWithStatus) : Prop :=
  forall ta tb,
    Date_parse (maintenanceDate a) = Some ta ->
    Date_parse (maintenanceDate b) = Some tb -> ta <= tb.

Definition datedAt (Date_parse : string -> TimeValue) (t : Z)
    (e : HistoryEntryWithStatus) : bool :=
  match Date_parse (maintenanceDate e) with
  | Some u => u =? t
  | None => false
  end.

(** The workshop test of the filter's callback, on its own. *)
Definition workshopMatches (selectedWorkshop : string)
    (entry : HistoryEntryWithStatus) : bool :=
  (selectedWorkshop =? "all")%string
  || (workshopId entry =? selectedWorkshop)%string.

(* ================================================================== *)
(** ** The controls of the component *)
(* ================================================================== *)

(** *** The sort headers (lines 107-116) *)

(** The icon of a header: the up or the down chevron on the active
    column, a muted down chevron on the others. *)
Inductive Icon : Set :=
| ChevronUp
| ChevronDown
| ChevronDownMuted.

Definition SortableHeader (st : ViewState) (sortKeyName : SortKey) : Icon :=
  if SortKey_eqb (sortKey st) sortKeyName
  then match sortDirection st with
       | asc => ChevronUp
       | desc => ChevronDown
       end
  else ChevronDownMuted.

(** *** Events and calls *)

(** What the component is rendered with: the derived history (the value of
    [processedHistory]) and the role of the user. *)
Record Props : Set := mkProps {
  p_processedHistory : list HistoryEntryWithStatus;
  p_userRole : UserRole
}.

(** The calls the component makes to its collaborators. *)
Inductive Call : Set :=
| onUpdateHistory (historyId newDate : string)
| exportToExcel (data : list HistoryEntryWithStatus)
| onClose.

(** The events of the controls the component renders.  A row is named by
    its position in the table; [ModalSave] and [ModalClose] are the
    [onSave] and [onClose] of the edit form. *)
Inductive Event : Set :=
| ChangeWorkshop (value : string)
| ChangeStartDate (value : string)
| ChangeEndDate (value : string)
| ClickClearFilters
| ClickHeader (sortKeyName : SortKey)
| ClickExport
| ClickClose
| ClickEditRow (row : nat)
| ModalSave (historyId newDate : string)
| ModalClose.

(** [handleSaveEdit] (lines 102-105). *)
Definition handleSaveEdit (historyId newDate : string) (st : ViewState)
    : ViewState * list Call :=
  (setEditingEntry None st, [onUpdateHistory historyId newDate]).

(** The edit form is rendered when an entry is being edited and the user
    is an editor (line 249). *)
Definition editFormShown (userRole : UserRole) (st : ViewState) : bool :=
  match editingEntry st, userRole with
  | Some _, editor => true
  | _, _ => false
  end.

Definition isUpdate (c : Call) : bool :=
  match c with
  | onUpdateHistory _ _ => true
  | _ => false
  end.

Section Dispatch.
Variable Date_parse : string -> TimeValue.

(** One event on the component rendered with [p] in state [st]: the next
    state and the calls made.  A control that is not rendered, or is
    disabled, dispatches nothing. *)
Definition dispatch (p : Props) (st : ViewState) (ev : Event)
    : ViewState * list Call :=
  let sorted := rows Date_parse (p_processedHistory p) st in
  match ev with
  | ChangeWorkshop v => (setSelectedWorkshop v st, [])
  | ChangeStartDate v => (setStartDate v st, [])
  | ChangeEndDate v => (setEndDate v st, [])
  | ClickClearFilters => (clearFilters st, [])
  | ClickHeader k => (handleSort k st, [])
  | ClickExport =>
      match sorted with
      | [] => (st, [])
      | _ :: _ => (st, [exportToExcel sorted])
      end
  | ClickClose => (st, [onClose])
  | ClickEditRow i =>
      match nth_error sorted i with
      | Some entry => (clickEdit (p_userRole p) entry st, [])
      | None => (st, [])
      end
  | ModalSave historyId newDate =>
      if editFormShown (p_userRole p) st
      then handleSaveEdit historyId newDate st
      else (st, [])
  | ModalClose =>
      if editFormShown (p_userRole p) st
      then (setEditingEntry None st, [])
      else (st, [])
  end.

(** A sequence of events, each on the component as rendered at that time. *)
Fixpoint run (evs : list (Props * Event)) (st : ViewState)
    : ViewState * list Call :=
  match evs with
  | [] => (st, [])
  | (p, ev) :: evs' =>
      let (st1, calls1) := dispatch p st ev in
      let (st2, calls2) := run evs' st1 in
      (st2, calls1 ++ calls2)
  end.

(** The clicks of the sequence that open the edit form: those on a
    rendered and enabled edit button. *)
Fixpoint opened (evs : list (Props * Event)) (st : ViewState) : nat :=
  match evs with
  | [] => O
  | (p, ev) :: evs' =>
      let here :=
        match ev with
        | ClickEditRow i =>
            match nth_error (rows Date_parse (p_processedHistory p) st) i with
            | Some entry => if canEdit (p_userRole p) entry then 1%nat else O
            | None => O
            end
        | _ => O
        end in
      (here + opened evs' (fst (dispatch p st ev)))%nat
  end.

(** The comparator of a sort key is consistent on these entries: all of
    them, but for the date, where an invalid date compares as [NaN]. *)
Definition comparable (k : SortKey) (e : HistoryEntryWithStatus) : Prop :=
  match k with
  | KMaintenanceDate => validDate Date_parse e
  | _ => True
  end.
End Dispatch.

(** The number of [onUpdateHistory] calls in a list of calls, and 1 for a
    state in which an entry is being edited. *)
Definition updates (calls : list Call) : nat := List.length (filter isUpdate calls).

Definition editing (st : ViewState) : nat :=
  match editingEntry st with
  | Some _ => 1%nat
  | None => O
  end.

(** An entry the edit form may hold: below the quota, and a row of the
    history some editor was shown. *)
Definition editable (shown : list Props) (e : HistoryEntryWithStatus) : Prop :=
  editCount e < 2
  /\ exists p, In p shown /\ p_userRole p = editor /\ In e (p_processedHistory p).

(* ================================================================== *)
(** ** Sample data *)
(* ================================================================== *)

Definition sample (i w d : string) (n : Z) (s : Status) (o : Z)
    : HistoryEntryWithStatus :=
  {| id := i; workshopId := w; workshopName := "Xuong " ++ w;
     equipmentName := "May nen"; taskName := "Thay dau";
     maintenanceDate := d; notes := None; editCount := n;
     status := s; overdueDays := o |}.

Definition h1 := sample "h1" "w1" "2024-01-31" 0 OnTime 0.
Definition h2 := sample "h2" "w2" "2024-01-31T10:00:00.000Z" 1 Overdue 3.
Definition h3 := sample "h3" "w1" "2024-02-15" 2 Overdue 7.
Definition h4 := sample "h4" "w2" "2024-03-01" 0 OnTime 0.
Definition h5 := sample "h5" "w1" "2024-03-10" 0 Overdue 3.
Definition h6 := sample "h6" "w1" "x" 0 OnTime 0.

Definition forEditor : Props :=
  {| p_processedHistory := [h1; h2; h3]; p_userRole := editor |}.

Definition forViewer : Props :=
  {| p_processedHistory := [h1; h2; h3]; p_userRole := viewer |}.

Definition W1 : Workshop := {| w_id := "w1"; w_name := "Xuong 1"; w_interval := 30 |}.

Definition raw1 : HistoryEntry :=
  {| h_id := "r1"; h_workshopId := "w1"; h_equipmentName := "May nen";
     h_taskName := "Thay dau"; h_maintenanceDate := "2024-01-01";
     h_notes := None; h_editCount := 0 |}.

(* ================================================================== *)
(** ** Facts about [Array_sort] *)
(* ================================================================== *)

Section SortFacts.
Context {A : Type}.
Variable comparefn : A -> A -> option Z.

Local Abbreviation cmp := (SortCompare comparefn).
Local Abbreviation le := (fun x y => cmp x y <= 0).

Lemma insert_perm (x : A) (l : list A) : Permutation (insert comparefn x l) (x :: l).
Proof.
  induction l as [|y l IH]; simpl.
  - apply Permutation_refl.
  - destruct (0 <? cmp x y).
    + eapply perm_trans; [apply perm_skip, IH | apply perm_swap].
    + apply Permutation_refl.
Qed.

Lemma Array_sort_perm (l : list A) : Permutation (Array_sort comparefn l) l.
Proof.
  induction l as [|x l IH]; simpl.
  - apply perm_nil.
  - eapply perm_trans; [apply insert_perm | apply perm_skip, IH].
Qed.

Lemma Array_sort_length (l : list A) :
  List.length (Array_sort comparefn l) = List.length l.
Proof. apply Permutation_length, Array_sort_perm. Qed.

Lemma Array_sort_In (l : list A) (x : A) : In x (Array_sort comparefn l) <-> In x l.
Proof.
  split; apply Permutation_in;
    [apply Array_sort_perm | apply Permutation_sym, Array_sort_perm].
Qed.

(** Stability.  Inserting [x] does not disturb the elements of a class
    [p] that [x] is not in, and puts [x] before the elements of its own
    class as long as it is not greater than any of them. *)
Lemma insert_filter_out (p : A -> bool) (x : A) (l : list A) :
  p x = false -> filter p (insert comparefn x l) = filter p l.
Proof.
  intros Hx. induction l as [|y l IH]; simpl.
  - now rewrite Hx.
  - destruct (0 <? cmp x y); simpl.
    + now rewrite IH.
    + now rewrite Hx.
Qed.

Lemma insert_filter_in (p : A -> bool) (x : A) (l : list A) :
  p x = true ->
  (forall y, In y l -> p y = true -> cmp x y <= 0) ->
  filter p (insert comparefn x l) = x :: filter p l.
Proof.
  intros Hx. induction l as [|y l IH]; intros Hle; simpl.
  - now rewrite Hx.
  - destruct (0 <? cmp x y) eqn:Hgt; simpl.
    + apply Z.ltb_lt in Hgt.
      destruct (p y) eqn:Hy.
      * specialize (Hle y (or_introl eq_refl) Hy). lia.
      * apply IH. intros z Hz. apply Hle. now right.
    + now rewrite Hx.
Qed.

Lemma Array_sort_stable (p : A -> bool) (l : list A) :
  (forall x y, p x = true -> p y = true -> cmp x y <= 0) ->
  filter p (Array_sort comparefn l) = filter p l.
Proof.
  intros Hp. induction l as [|x l IH]; simpl; [reflexivity|].
  destruct (p x) eqn:Hx.
  - rewrite insert_filter_in; [now rewrite IH | assumption |].
    intros y _ Hy. now apply Hp.
  - rewrite insert_filter_out by assumption. apply IH.
Qed.

(** Order, for a comparator that is total and transitive on the elements
    of the list (those in [dom]). *)
Section Order.
Variable dom : A -> Prop.
Hypothesis dom_total : forall x y, dom x -> dom y -> 0 < cmp x y -> cmp y x <= 0.
Hypothesis dom_trans :
  forall x y z, dom x -> dom y -> dom z -> cmp x y <= 0 -> cmp y z <= 0 -> cmp x z <= 0.

Lemma insert_sorted_on (x : A) (l : list A) :
  dom x -> Forall dom l ->
  StronglySorted le l -> StronglySorted le (insert comparefn x l).
Proof.
  intros Dx. induction l as [|y l IH]; intros Dl Hs; simpl.
  - constructor; constructor.
  - inversion Hs as [|? ? Hs' Hall]; subst.
    inversion Dl as [|? ? Dy Dl']; subst.
    destruct (0 <? cmp x y) eqn:Hgt.
    + apply Z.ltb_lt in Hgt. constructor; [now apply IH|].
      apply (Permutation_Forall (Permutation_sym (insert_perm x l))).
      constructor; [now apply dom_total | assumption].
    + apply Z.ltb_ge in Hgt. constructor; [assumption|].
      constructor; [assumption|].
      rewrite Forall_forall in Hall, Dl'. apply Forall_forall.
      intros z Hz. apply dom_trans with y; auto.
Qed.

Lemma Array_sort_sorted_on (l : list A) :
  Forall dom l -> StronglySorted le (Array_sort comparefn l).
Proof.
  induction 1 as [|x l Dx Dl IH]; simpl.
  - constructor.
  - apply insert_sorted_on; [assumption | | assumption].
    apply (Permutation_Forall (Permutation_sym (Array_sort_perm l))). assumption.
Qed.
End Order.

(** The same for a comparator that is total and transitive everywhere. *)
Hypothesis cmp_total : forall x y, 0 < cmp x y -> cmp y x <= 0.
Hypothesis cmp_trans : forall x y z, cmp x y <= 0 -> cmp y z <= 0 -> cmp x z <= 0.

Lemma Array_sort_sorted (l : list A) : StronglySorted le (Array_sort comparefn l).
Proof.
  apply (Array_sort_sorted_on (fun _ => True)).
  - intros x y _ _. apply cmp_total.
  - intros x y z _ _ _. apply cmp_trans.
  - apply Forall_forall. intros; exact I.
Qed.

Lemma cmp_refl (x : A) : cmp x x <= 0.
Proof.
  destruct (Z.lt_ge_cases 0 (cmp x x)) as [H|H]; [now apply cmp_total | lia].
Qed.

Lemma tied_refl (x : A) : tied comparefn x x = true.
Proof.
  unfold tied. pose proof (cmp_refl x). apply andb_true_iff; split; now apply Z.leb_le.
Qed.

Lemma tied_iff (x y : A) : tied comparefn x y = true <-> cmp x y <= 0 /\ cmp y x <= 0.
Proof.
  unfold tied. now rewrite andb_true_iff, !Z.leb_le.
Qed.

Lemma tied_sym (x y : A) : tied comparefn x y = tied comparefn y x.
Proof. unfold tied. apply andb_comm. Qed.

(** [Array_sort] returns such a result. *)
Lemma Array_sort_StableSorted (l : list A) :
  StableSorted comparefn l (Array_sort comparefn l).
Proof.
  split; [apply Array_sort_sorted|].
  intros x. apply Array_sort_stable. intros a b Ha Hb.
  apply tied_iff in Ha, Hb. apply cmp_trans with x; tauto.
Qed.

(** There is one such result: two lists in order with the same classes of
    tied elements are equal.  Every stable sort therefore returns what
    [Array_sort] returns. *)
Lemma sorted_classes_unique (o1 o2 : list A) :
  StronglySorted le o1 -> StronglySorted le o2 ->
  (forall x, filter (tied comparefn x) o1 = filter (tied comparefn x) o2) ->
  o1 = o2.
Proof.
  revert o2. induction o1 as [|a t1 IH]; intros [|b t2] S1 S2 Hcl.
  - reflexivity.
  - specialize (Hcl b). simpl in Hcl. rewrite tied_refl in Hcl. discriminate.
  - specialize (Hcl a). simpl in Hcl. rewrite tied_refl in Hcl. discriminate.
  - inversion S1 as [|? ? S1' A1]; inversion S2 as [|? ? S2' A2]; subst.
    rewrite Forall_forall in A1, A2.
    assert (a = b) as <-.
    { pose proof (Hcl a) as Ca. pose proof (Hcl b) as Cb. simpl in Ca, Cb.
      rewrite tied_refl in Ca, Cb. rewrite (tied_sym b a) in Cb.
      destruct (tied comparefn a b) eqn:Tab; [now injection Ca|].
      exfalso.
      assert (In a t2) as Ia.
      { assert (In a (filter (tied comparefn a) t2)) as I
            by (rewrite <- Ca; now left).
        now apply filter_In in I. }
      assert (In b t1) as Ib.
      { assert (In b (filter (tied comparefn b) t1)) as I
            by (rewrite Cb; now left).
        now apply filter_In in I. }
      pose proof (A1 b Ib). pose proof (A2 a Ia).
      assert (tied comparefn a b = true) by (apply tied_iff; split; assumption).
      congruence. }
    f_equal. apply IH; [assumption | assumption |].
    intros x. specialize (Hcl x). simpl in Hcl.
    destruct (tied comparefn x a); [now injection Hcl | assumption].
Qed.

Lemma StableSorted_unique (l out : list A) :
  StableSorted comparefn l out -> out = Array_sort comparefn l.
Proof.
  intros [Hs Hc]. destruct (Array_sort_StableSorted l) as [Hs' Hc'].
  apply sorted_classes_unique; [assumption | assumption |].
  intros x. now rewrite Hc, Hc'.
Qed.
End SortFacts.

(** In a sorted list the element at a smaller index is related to the one
    at a greater index. *)
Lemma StronglySorted_nth {A : Type} (R : A -> A -> Prop) (l : list A) :
  StronglySorted R l ->
  forall (i j : nat) (a b : A),
    nth_error l i = Some a -> nth_error l j = Some b -> (i < j)%nat -> R a b.
Proof.
  induction 1 as [|x l Hs IH Hall]; intros i j a b Hi Hj Hlt.
  - destruct i; discriminate.
  - destruct j as [|j]; [lia|].
    destruct i as [|i]; simpl in Hi, Hj.
    + injection Hi as <-. rewrite Forall_forall in Hall.
      apply Hall. eapply nth_error_In; eassumption.
    + apply (IH i j); [assumption | assumption | lia].
Qed.

(** So an element that may not stand behind another one stands before it. *)
Lemma StronglySorted_before {A : Type} (R : A -> A -> Prop) (l : list A) :
  StronglySorted R l ->
  forall (i j : nat) (a b : A),
    nth_error l i = Some a -> nth_error l j = Some b ->
    ~ R b a -> a <> b -> (i < j)%nat.
Proof.
  intros Hs i j a b Hi Hj Hnot Hne.
  destruct (Nat.lt_trichotomy i j) as [Hlt|[Heq|Hgt]]; [assumption | |].
  - subst j. rewrite Hi in Hj. injection Hj as <-. now elim Hne.
  - elim Hnot. now apply (StronglySorted_nth R l Hs j i).
Qed.

Lemma StronglySorted_app {A : Type} (R : A -> A -> Prop) (l1 l2 : list A) :
  StronglySorted R l1 -> StronglySorted R l2 ->
  (forall a b, In a l1 -> In b l2 -> R a b) ->
  StronglySorted R (l1 ++ l2).
Proof.
  induction 1 as [|x l1 Hs IH Hall]; intros H2 Hc; simpl; [assumption|].
  constructor.
  - apply IH; [assumption|]. intros a b Ha Hb. apply Hc; [now right | assumption].
  - apply Forall_app. split; [assumption|].
    apply Forall_forall. intros b Hb. apply Hc; [now left | assumption].
Qed.

Lemma StronglySorted_weaken {A : Type} (R Q : A -> A -> Prop) (l : list A) :
  StronglySorted R l -> (forall a b, R a b -> Q a b) -> StronglySorted Q l.
Proof.
  intros Hs Himp. induction Hs as [|x l Hs IH Hall]; constructor; [assumption|].
  eapply Forall_impl; [|exact Hall]. intros b. apply Himp.
Qed.

(** Reversing a sorted list sorts it for the converse relation. *)
Lemma StronglySorted_rev {A : Type} (R : A -> A -> Prop) (l : list A) :
  StronglySorted R l -> StronglySorted (fun a b => R b a) (rev l).
Proof.
  induction 1 as [|x l Hs IH Hall]; simpl; [constructor|].
  apply StronglySorted_app; [assumption | repeat constructor |].
  intros a b Ha [<-|[]]. rewrite Forall_forall in Hall.
  apply Hall. now apply in_rev.
Qed.

(* ================================================================== *)
(** ** Sorting the history *)
(* ================================================================== *)

Section SortedHistoryFacts.
Variable Date_parse : string -> TimeValue.

Local Abbreviation byStatus := (SortCompare (compareEntries Date_parse KStatus)).

(** The value of the status comparator in its four cases. *)
Lemma byStatus_cases (a b : HistoryEntryWithStatus) :
  byStatus a b =
  match status a, status b with
  | Overdue, OnTime => -1
  | OnTime, Overdue => 1
  | Overdue, Overdue => overdueDays b - overdueDays a
  | OnTime, OnTime => 0
  end.
Proof.
  unfold SortCompare, compareEntries.
  destruct (status a), (status b); reflexivity.
Qed.

Lemma byStatus_total (x y : HistoryEntryWithStatus) :
  0 < byStatus x y -> byStatus y x <= 0.
Proof.
  rewrite !byStatus_cases. destruct (status x), (status y); lia.
Qed.

Lemma byStatus_trans (x y z : HistoryEntryWithStatus) :
  byStatus x y <= 0 -> byStatus y z <= 0 -> byStatus x z <= 0.
Proof.
  rewrite !byStatus_cases. destruct (status x), (status y), (status z); lia.
Qed.

Lemma sortedHistory_status_sorted (l : list HistoryEntryWithStatus) :
  StronglySorted (fun a b => byStatus a b <= 0)
    (sortedHistory Date_parse l KStatus asc).
Proof.
  apply Array_sort_sorted; [apply byStatus_total | apply byStatus_trans].
Qed.

Lemma sortedHistory_status_desc_sorted (l : list HistoryEntryWithStatus) :
  StronglySorted (fun a b => byStatus b a <= 0)
    (sortedHistory Date_parse l KStatus desc).
Proof.
  apply (StronglySorted_rev (fun a b => byStatus a b <= 0)).
  apply sortedHistory_status_sorted.
Qed.

Lemma byStatus_classes (p : HistoryEntryWithStatus -> bool) :
  p = isOnTime \/ (exists d, p = overdueBy d) ->
  forall x y, p x = true -> p y = true -> byStatus x y <= 0.
Proof.
  intros Hp x y Hx Hy. rewrite byStatus_cases.
  destruct Hp as [->|[d ->]]; unfold overdueBy, isOverdue, isOnTime in Hx, Hy.
  - destruct (status x), (status y); simpl in *; try discriminate; lia.
  - apply andb_true_iff in Hx as [Hx Hdx], Hy as [Hy Hdy].
    apply Z.eqb_eq in Hdx, Hdy.
    destruct (status x), (status y); simpl in *; try discriminate; lia.
Qed.

(** C1.  Sorting by status, ascending: in the result every overdue entry
    stands before every on-time entry, and of two overdue entries the
    one with more overdue days stands first; on two on-time entries and
    on two overdue entries with the same number of days the comparator
    returns 0, and the entries of each such class stand in the order they
    had in the input.  The result is a permutation of the input. *)
Theorem sort_by_status_ascending (l : list HistoryEntryWithStatus) :
  let out := sortedHistory Date_parse l KStatus asc in
  Permutation out l
  /\ (forall i j a b,
        nth_error out i = Some a -> nth_error out j = Some b ->
        status a = Overdue -> status b = OnTime -> (i < j)%nat)
  /\ (forall i j a b,
        nth_error out i = Some a -> nth_error out j = Some b ->
        status a = Overdue -> status b = Overdue ->
        overdueDays b < overdueDays a -> (i < j)%nat)
  /\ (forall a b,
        status a = OnTime -> status b = OnTime ->
        compareEntries Date_parse KStatus a b = Some 0)
  /\ (forall a b,
        status a = Overdue -> status b = Overdue ->
        overdueDays a = overdueDays b ->
        compareEntries Date_parse KStatus a b = Some 0)
  /\ filter isOnTime out = filter isOnTime l
  /\ (forall d, filter (overdueBy d) out = filter (overdueBy d) l).
Proof.
  pose proof (StronglySorted_before _ _ (sortedHistory_status_sorted l)) as Hbefore.
  cbv zeta. repeat split.
  - apply Array_sort_perm.
  - intros i j a b Hi Hj Ha Hb. apply (Hbefore i j a b Hi Hj).
    + rewrite byStatus_cases, Ha, Hb. lia.
    + congruence.
  - intros i j a b Hi Hj Ha Hb Hd. apply (Hbefore i j a b Hi Hj).
    + rewrite byStatus_cases, Ha, Hb. lia.
    + intros ->. lia.
  - intros a b Ha Hb. unfold compareEntries. now rewrite Ha, Hb.
  - intros a b Ha Hb Hd. unfold compareEntries. rewrite Ha, Hb, Hd. simpl.
    f_equal. lia.
  - apply Array_sort_stable, byStatus_classes. now left.
  - intros d. apply Array_sort_stable, byStatus_classes. right. now exists d.
Qed.

(** C2.  Descending is the reversal of the ascending result, for every
    list and every sort key.  For the status key the on-time entries then
    stand before the overdue ones, and of two overdue entries the one with
    fewer days stands first; this is not the sort with the comparator's
    sign flipped, which leaves tied entries in their input order. *)
Theorem descending_is_reversed_ascending :
  (forall (l : list HistoryEntryWithStatus) (k : SortKey),
      sortedHistory Date_parse l k desc = rev (sortedHistory Date_parse l k asc))
  /\ (forall l i j a b,
        nth_error (sortedHistory Date_parse l KStatus desc) i = Some a ->
        nth_error (sortedHistory Date_parse l KStatus desc) j = Some b ->
        status a = OnTime -> status b = Overdue -> (i < j)%nat)
  /\ (forall l i j a b,
        nth_error (sortedHistory Date_parse l KStatus desc) i = Some a ->
        nth_error (sortedHistory Date_parse l KStatus desc) j = Some b ->
        status a = Overdue -> status b = Overdue ->
        overdueDays a < overdueDays b -> (i < j)%nat)
  /\ sortedHistory Date_parse [h1; h2; h3; h4; h5] KStatus asc
     = [h3; h2; h5; h1; h4]
  /\ sortedHistory Date_parse [h1; h2; h3; h4; h5] KStatus desc
     = [h4; h1; h5; h2; h3]
  /\ Array_sort (flipped (compareEntries Date_parse KStatus)) [h1; h2; h3; h4; h5]
     = [h1; h4; h2; h5; h3]
  /\ sortedHistory Date_parse [h1; h2; h3; h4; h5] KStatus desc
     <> Array_sort (flipped (compareEntries Date_parse KStatus)) [h1; h2; h3; h4; h5].
Proof.
  split; [reflexivity|]. split; [|split].
  - intros l i j a b Hi Hj Ha Hb.
    apply (StronglySorted_before _ _ (sortedHistory_status_desc_sorted l) i j a b Hi Hj).
    + rewrite byStatus_cases, Ha, Hb. lia.
    + congruence.
  - intros l i j a b Hi Hj Ha Hb Hd.
    apply (StronglySorted_before _ _ (sortedHistory_status_desc_sorted l) i j a b Hi Hj).
    + rewrite byStatus_cases, Ha, Hb. lia.
    + intros ->. lia.
  - repeat split; try reflexivity.
    intros H. vm_compute in H. discriminate H.
Qed.

(** The status comparator is consistent, so the order of the rows does not
    depend on the sorting algorithm of the host: every stable sort returns
    the list [sortedHistory] returns. *)
Lemma sort_by_status_determined (l out : list HistoryEntryWithStatus) :
  StableSorted (compareEntries Date_parse KStatus) l out ->
  out = sortedHistory Date_parse l KStatus asc.
Proof.
  apply StableSorted_unique; [apply byStatus_total | apply byStatus_trans].
Qed.
End SortedHistoryFacts.

(* ================================================================== *)
(** ** The other sort keys *)
(* ================================================================== *)

(** The order [<=] on strings is transitive. *)
Lemma String_compare_not_Gt_trans (a b c : string) :
  (a ?= b)%string <> Gt -> (b ?= c)%string <> Gt -> (a ?= c)%string <> Gt.
Proof.
  revert b c. induction a as [|ca a IH]; intros [|cb b] [|cc c]; simpl;
    try congruence.
  unfold Ascii.compare.
  destruct (N.compare_spec (N_of_ascii ca) (N_of_ascii cb)) as [E1|L1|G1];
    destruct (N.compare_spec (N_of_ascii cb) (N_of_ascii cc)) as [E2|L2|G2];
    try congruence.
  - rewrite E1, E2, N.compare_refl. apply IH.
  - intros _ _. rewrite E1. apply N.compare_lt_iff in L2. now rewrite L2.
  - intros _ _. rewrite <- E2. apply N.compare_lt_iff in L1. now rewrite L1.
  - intros _ _.
    assert ((N_of_ascii ca ?= N_of_ascii cc)%N = Lt) as ->
        by (apply N.compare_lt_iff; eapply N.lt_trans; eassumption).
    discriminate.
Qed.

Section OtherKeys.
Variable Date_parse : string -> TimeValue.

Lemma byName_le (k : SortKey) (x y : HistoryEntryWithStatus) :
  isNameKey k = true ->
  SortCompare (compareEntries Date_parse k) x y <= 0
  <-> (nameField k x ?= nameField k y)%string <> Gt.
Proof.
  intros Hk. unfold SortCompare.
  assert (compareEntries Date_parse k x y
          = if (nameField k x <? nameField k y)%string then Some (-1)
            else if (nameField k y <? nameField k x)%string then Some 1
            else Some 0) as ->
      by (destruct k; try discriminate; reflexivity).
  unfold String.ltb. rewrite (String.compare_antisym (nameField k y)).
  destruct (nameField k x ?= nameField k y)%string; simpl;
    split; intros; try lia; try discriminate; congruence.
Qed.

(** Sorting by one of the three name columns, ascending: the names of the
    rows are in lexicographic order, non-decreasing, and the rows with one
    and the same name stand in the order they had in the input. *)
Theorem sort_by_name_lexicographic
    (l : list HistoryEntryWithStatus) (k : SortKey) :
  isNameKey k = true ->
  StronglySorted (fun a b => (nameField k a ?= nameField k b)%string <> Gt)
    (sortedHistory Date_parse l k asc)
  /\ Permutation (sortedHistory Date_parse l k asc) l
  /\ (forall n, filter (fun e => (nameField k e =? n)%string)
                  (sortedHistory Date_parse l k asc)
                = filter (fun e => (nameField k e =? n)%string) l).
Proof.
  intros Hk. split; [|split].
  - apply StronglySorted_weaken
      with (R := fun a b => SortCompare (compareEntries Date_parse k) a b <= 0);
      [apply Array_sort_sorted | intros a b H; now apply (byName_le k a b Hk)].
    + intros x y H. apply (byName_le k y x Hk).
      assert (~ SortCompare (compareEntries Date_parse k) x y <= 0) as N by lia.
      rewrite (byName_le k x y Hk) in N.
      rewrite String.compare_antisym.
      destruct (nameField k x ?= nameField k y)%string; simpl;
        try discriminate; elim N; discriminate.
    + intros x y z. rewrite !(byName_le _ _ _ Hk).
      apply String_compare_not_Gt_trans.
  - apply Array_sort_perm.
  - intros n. apply Array_sort_stable. intros x y Hx Hy.
    apply String.eqb_eq in Hx, Hy. apply (byName_le k x y Hk).
    rewrite Hx, Hy.
    replace (n ?= n)%string with Eq; [discriminate|].
    symmetry. destruct (n ?= n)%string eqn:E; [reflexivity | |];
      pose proof (String.compare_antisym n n) as A; rewrite E in A; discriminate.
Qed.

Lemma byDate_valid (x y : HistoryEntryWithStatus) :
  validDate Date_parse x -> validDate Date_parse y ->
  exists tx ty,
    Date_parse (maintenanceDate x) = Some tx
    /\ Date_parse (maintenanceDate y) = Some ty
    /\ SortCompare (compareEntries Date_parse KMaintenanceDate) x y = tx - ty.
Proof.
  unfold validDate, SortCompare, compareEntries, getTime_sub. intros Hx Hy.
  destruct (Date_parse (maintenanceDate x)) as [tx|]; [|now elim Hx].
  destruct (Date_parse (maintenanceDate y)) as [ty|]; [|now elim Hy].
  now exists tx, ty.
Qed.

(** Sorting by maintenance date, ascending, a history whose dates are all
    valid: the rows are in chronological order, and the rows with one and
    the same time value stand in the order they had in the input. *)
Theorem sort_by_date_chronological (l : list HistoryEntryWithStatus) :
  Forall (validDate Date_parse) l ->
  StronglySorted (notLater Date_parse) (sortedHistory Date_parse l KMaintenanceDate asc)
  /\ Permutation (sortedHistory Date_parse l KMaintenanceDate asc) l
  /\ (forall t, filter (datedAt Date_parse t) (sortedHistory Date_parse l KMaintenanceDate asc)
                = filter (datedAt Date_parse t) l).
Proof.
  intros Hv. split; [|split].
  - apply StronglySorted_weaken
      with (R := fun a b =>
                   SortCompare (compareEntries Date_parse KMaintenanceDate) a b <= 0);
      [apply (Array_sort_sorted_on _ (validDate Date_parse)); [| |exact Hv]|].
    2:{ intros x y z Dx Dy Dz.
        destruct (byDate_valid x y Dx Dy) as (tx & ty & Ex & Ey & ->).
        destruct (byDate_valid y z Dy Dz) as (ty' & tz & Ey' & Ez & ->).
        destruct (byDate_valid x z Dx Dz) as (tx' & tz' & Ex' & Ez' & ->).
        rewrite Ex in Ex'. rewrite Ey in Ey'. rewrite Ez in Ez'.
        injection Ex' as <-. injection Ey' as <-. injection Ez' as <-. lia. }
    2:{ intros a b H ta tb Ha Hb.
        unfold SortCompare, compareEntries, getTime_sub in H.
        rewrite Ha, Hb in H. lia. }
    intros x y Dx Dy.
    destruct (byDate_valid x y Dx Dy) as (tx & ty & Ex & Ey & ->).
    destruct (byDate_valid y x Dy Dx) as (ty' & tx' & Ey' & Ex' & ->).
    rewrite Ex in Ex'. rewrite Ey in Ey'.
    injection Ex' as <-. injection Ey' as <-. lia.
  - apply Array_sort_perm.
  - intros t. apply Array_sort_stable. intros x y Hx Hy.
    unfold datedAt in Hx, Hy. unfold SortCompare, compareEntries, getTime_sub.
    destruct (Date_parse (maintenanceDate x)) as [tx|]; [|discriminate].
    destruct (Date_parse (maintenanceDate y)) as [ty|]; [|discriminate].
    apply Z.eqb_eq in Hx, Hy. lia.
Qed.
End OtherKeys.

(* ================================================================== *)
(** ** Filtering the history *)
(* ================================================================== *)

Lemma truthy_true (s : string) : truthy s = true <-> s <> "".
Proof.
  unfold truthy. rewrite negb_true_iff. apply String.eqb_neq.
Qed.

Lemma truthy_empty : truthy "" = false.
Proof. reflexivity. Qed.

Section FilteredHistoryFacts.
Variable Date_parse : string -> TimeValue.

Lemma workshopMatches_iff (wk : string) (e : HistoryEntryWithStatus) :
  workshopMatches wk e = true <-> wk = "all" \/ workshopId e = wk.
Proof.
  unfold workshopMatches. rewrite orb_true_iff, !String.eqb_eq. reflexivity.
Qed.

(** The callback is the conjunction of the workshop test and of the date
    tests. *)
Lemma keepEntry_split (wk s u : string) (e : HistoryEntryWithStatus) :
  keepEntry Date_parse wk s u e
  = workshopMatches wk e && keepEntry Date_parse "all" s u e.
Proof.
  unfold keepEntry, workshopMatches. simpl.
  destruct (wk =? "all")%string, (workshopId e =? wk)%string; reflexivity.
Qed.

Lemma keepEntry_no_dates (wk : string) (e : HistoryEntryWithStatus) :
  keepEntry Date_parse wk "" "" e = workshopMatches wk e.
Proof.
  unfold keepEntry, workshopMatches. simpl.
  destruct (wk =? "all")%string, (workshopId e =? wk)%string; reflexivity.
Qed.

(** The start test and the end test, on an entry whose time value is [t]. *)
Lemma start_test_iff (s : string) (t : Z) :
  truthy s && Date_lt (Some t) (Date_parse s) = false
  <-> (forall lo, s <> "" -> Date_parse s = Some lo -> lo <= t).
Proof.
  rewrite andb_false_iff. unfold Date_lt. split.
  - intros [H|H] lo Hne Hlo.
    + apply not_true_iff_false in H. elim H. now apply truthy_true.
    + rewrite Hlo in H. now apply Z.ltb_ge in H.
  - intros H. destruct (truthy s) eqn:Hs; [right | now left].
    apply truthy_true in Hs.
    destruct (Date_parse s) as [lo|]; [|reflexivity].
    apply Z.ltb_ge. now apply H.
Qed.

Lemma end_test_iff (u : string) (t : Z) :
  truthy u && Date_gt (Some t) (Date_parse u) = false
  <-> (forall hi, u <> "" -> Date_parse u = Some hi -> t <= hi).
Proof.
  rewrite andb_false_iff. unfold Date_gt. split.
  - intros [H|H] hi Hne Hhi.
    + apply not_true_iff_false in H. elim H. now apply truthy_true.
    + rewrite Hhi in H. now apply Z.ltb_ge in H.
  - intros H. destruct (truthy u) eqn:Hu; [right | now left].
    apply truthy_true in Hu.
    destruct (Date_parse u) as [hi|]; [|reflexivity].
    apply Z.ltb_ge. now apply H.
Qed.

Lemma keepEntry_all (s u : string) (e : HistoryEntryWithStatus) :
  keepEntry Date_parse "all" s u e
  = negb (truthy s && Date_lt (Date_parse (maintenanceDate e)) (Date_parse s))
    && negb (truthy u && Date_gt (Date_parse (maintenanceDate e)) (Date_parse u)).
Proof.
  unfold keepEntry. simpl.
  destruct (truthy s), (truthy u); simpl;
    repeat match goal with
           | |- context [if ?c then _ else _] => destruct c; simpl
           end; reflexivity.
Qed.

(** The date tests on an entry whose date is valid: the time values are
    compared. *)
Lemma keepEntry_dates (s u : string) (e : HistoryEntryWithStatus) (t : Z) :
  Date_parse (maintenanceDate e) = Some t ->
  keepEntry Date_parse "all" s u e = true <->
  (forall lo, s <> "" -> Date_parse s = Some lo -> lo <= t)
  /\ (forall hi, u <> "" -> Date_parse u = Some hi -> t <= hi).
Proof.
  intros Ht.
  rewrite keepEntry_all, Ht, andb_true_iff, !negb_true_iff.
  now rewrite start_test_iff, end_test_iff.
Qed.

(** An entry whose date is invalid passes every date test. *)
Lemma keepEntry_invalid_date (s u : string) (e : HistoryEntryWithStatus) :
  Date_parse (maintenanceDate e) = None ->
  keepEntry Date_parse "all" s u e = true.
Proof.
  intros Ht. rewrite keepEntry_all, Ht. simpl.
  now rewrite !andb_false_r.
Qed.
End FilteredHistoryFacts.

Section FilterClaims.
Variable Date_parse : string -> TimeValue.

(** C3 (as amended).  The date filter compares time values, with no
    normalisation of the time of day.  An entry with a valid date that
    passes the workshop test is kept exactly when its time value is not
    before the time value of a present start bound and not after the time
    value of a present end bound; both bounds are inclusive, so an entry
    whose [maintenanceDate] is the very string of a bound is retained, and
    an entry whose time value is before the start bound's or after the end
    bound's, be it on the same day, is dropped. *)
Theorem date_filter_compares_time_values
    (wk s u : string) (e : HistoryEntryWithStatus) (t : Z) :
  Date_parse (maintenanceDate e) = Some t ->
  (keepEntry Date_parse wk s u e = true <->
     (wk = "all" \/ workshopId e = wk)
     /\ (forall lo, s <> "" -> Date_parse s = Some lo -> lo <= t)
     /\ (forall hi, u <> "" -> Date_parse u = Some hi -> t <= hi))
  /\ (maintenanceDate e = s -> keepEntry Date_parse "all" s "" e = true)
  /\ (maintenanceDate e = u -> keepEntry Date_parse "all" "" u e = true)
  /\ (maintenanceDate e = s -> maintenanceDate e = u ->
      keepEntry Date_parse "all" s u e = true)
  /\ (forall lo, s <> "" -> Date_parse s = Some lo -> t < lo ->
      keepEntry Date_parse wk s u e = false)
  /\ (forall hi, u <> "" -> Date_parse u = Some hi -> hi < t ->
      keepEntry Date_parse wk s u e = false).
Proof.
  intros Ht.
  assert (keepEntry Date_parse wk s u e = true <->
          (wk = "all" \/ workshopId e = wk)
          /\ (forall lo, s <> "" -> Date_parse s = Some lo -> lo <= t)
          /\ (forall hi, u <> "" -> Date_parse u = Some hi -> t <= hi)) as Hiff
      by (rewrite keepEntry_split, andb_true_iff, workshopMatches_iff,
            (keepEntry_dates Date_parse s u e t Ht); reflexivity).
  split; [exact Hiff|].
  assert (forall P : Prop, (keepEntry Date_parse wk s u e = true -> P) -> ~ P ->
                           keepEntry Date_parse wk s u e = false) as Hdrop
      by (intros P HP HnP; apply not_true_is_false; tauto).
  repeat split.
  5:{ intros hi Hne Hhi Hlt.
      apply (Hdrop (t <= hi)); [|lia].
      intros K. apply Hiff in K as (_ & _ & K). now apply K. }
  4:{ intros lo Hne Hlo Hlt.
      apply (Hdrop (lo <= t)); [|lia].
      intros K. apply Hiff in K as (_ & K & _). now apply K. }
  - intros <-. apply (keepEntry_dates Date_parse _ _ e t Ht).
    split; [intros lo _ Hlo; rewrite Ht in Hlo; injection Hlo as <-; lia|].
    intros hi Hne. now elim Hne.
  - intros <-. apply (keepEntry_dates Date_parse _ _ e t Ht).
    split; [intros lo Hne; now elim Hne|].
    intros hi _ Hhi. rewrite Ht in Hhi. injection Hhi as <-. lia.
  - intros <- Hu. apply (keepEntry_dates Date_parse _ _ e t Ht).
    split; [intros lo _ Hlo; rewrite Ht in Hlo; injection Hlo as <-; lia|].
    intros hi _ Hhi. rewrite <- Hu, Ht in Hhi. injection Hhi as <-. lia.
Qed.

(** C4.  The workshop filter keeps an entry iff the criterion is ['all']
    or the entry's [workshopId] is the criterion (and the date tests
    pass); with ['all'] and no date bound the result is the input list
    itself, and with a workshop id that no entry has it is empty. *)
Theorem workshop_filter
    (l : list HistoryEntryWithStatus) (wk s u : string) :
  (forall e, In e (filteredHistory Date_parse l wk s u) <->
             In e l /\ (wk = "all" \/ workshopId e = wk)
             /\ keepEntry Date_parse "all" s u e = true)
  /\ filteredHistory Date_parse l wk "" ""
     = filter (fun e => (wk =? "all")%string || (workshopId e =? wk)%string) l
  /\ filteredHistory Date_parse l "all" "" "" = l
  /\ (wk <> "all" -> (forall e, In e l -> workshopId e <> wk) ->
      filteredHistory Date_parse l wk s u = []).
Proof.
  unfold filteredHistory. split; [|split; [|split]].
  - intros e. rewrite filter_In, keepEntry_split, andb_true_iff,
      workshopMatches_iff. tauto.
  - apply filter_ext. intros e. apply keepEntry_no_dates.
  - induction l as [|e l' IH]; simpl; [reflexivity | now rewrite IH].
  - intros Hne Hno. induction l as [|e l' IH]; simpl; [reflexivity|].
    rewrite keepEntry_split.
    assert (workshopMatches wk e = false) as ->.
    { apply not_true_is_false. rewrite workshopMatches_iff.
      intros [H|H]; [contradiction | apply (Hno e (or_introl eq_refl) H)]. }
    simpl. apply IH. intros x Hx. apply Hno. now right.
Qed.

(** C7 (as amended).  With both bounds present and the start after the
    end, the filter returns a list (it raises nothing) in which no entry
    with a valid date is left: on a history whose dates are all valid the
    result is empty.  Only an entry whose [maintenanceDate] is not a date
    can be left. *)
Theorem inverted_bounds_give_empty
    (l : list HistoryEntryWithStatus) (wk s u : string) (lo hi : Z) :
  s <> "" -> u <> "" ->
  Date_parse s = Some lo -> Date_parse u = Some hi -> hi < lo ->
  (forall e, In e (filteredHistory Date_parse l wk s u) ->
             Date_parse (maintenanceDate e) = None)
  /\ (Forall (validDate Date_parse) l ->
      filteredHistory Date_parse l wk s u = []).
Proof.
  intros Hs Hu Hlo Hhi Hlt.
  assert (forall e, In e (filteredHistory Date_parse l wk s u) ->
                    Date_parse (maintenanceDate e) = None) as Hnone.
  { intros e He. apply filter_In in He as [_ He].
    rewrite keepEntry_split, andb_true_iff in He. destruct He as [_ He].
    destruct (Date_parse (maintenanceDate e)) as [t|] eqn:Ht; [|reflexivity].
    pose proof (proj1 (keepEntry_dates Date_parse s u e t Ht) He) as [K1 K2].
    specialize (K1 lo Hs Hlo). specialize (K2 hi Hu Hhi). lia. }
  split; [exact Hnone|].
  intros Hall.
  destruct (filteredHistory Date_parse l wk s u) as [|e r] eqn:E; [reflexivity|].
  exfalso. rewrite Forall_forall in Hall. apply (Hall e).
  - assert (In e (filteredHistory Date_parse l wk s u)) as Hin
        by (rewrite E; now left).
    now apply filter_In in Hin.
  - apply Hnone. now left.
Qed.

(** The three criteria are combined with a logical and: the callback is
    the conjunction of the workshop test, the start test and the end test,
    so filtering by all three is filtering by each in turn; the result keeps
    the entries that pass in the order of the input. *)
Theorem filters_compose (l : list HistoryEntryWithStatus) (wk s u : string) :
  (forall e, keepEntry Date_parse wk s u e
             = keepEntry Date_parse wk "" "" e
               && keepEntry Date_parse "all" s "" e
               && keepEntry Date_parse "all" "" u e)
  /\ filteredHistory Date_parse l wk s u
     = filteredHistory Date_parse
         (filteredHistory Date_parse
            (filteredHistory Date_parse l wk "" "") "all" s "") "all" "" u
  /\ (forall l1 l2, filteredHistory Date_parse (l1 ++ l2) wk s u
                    = filteredHistory Date_parse l1 wk s u
                      ++ filteredHistory Date_parse l2 wk s u)
  /\ (List.length (filteredHistory Date_parse l wk s u) <= List.length l)%nat.
Proof.
  assert (forall e, keepEntry Date_parse wk s u e
                    = keepEntry Date_parse wk "" "" e
                      && keepEntry Date_parse "all" s "" e
                      && keepEntry Date_parse "all" "" u e) as Hand.
  { intros e. rewrite (keepEntry_split Date_parse wk s u), keepEntry_no_dates.
    rewrite <- andb_assoc. f_equal.
    rewrite !keepEntry_all. simpl. now rewrite andb_true_r. }
  split; [exact Hand|]. unfold filteredHistory. split; [|split].
  - induction l as [|e l' IH]; simpl; [reflexivity|].
    rewrite (Hand e).
    destruct (keepEntry Date_parse wk "" "" e); simpl; [|exact IH].
    destruct (keepEntry Date_parse "all" s "" e); simpl; [|exact IH].
    destruct (keepEntry Date_parse "all" "" u e); simpl; [|exact IH].
    now rewrite IH.
  - intros l1 l2. apply filter_app.
  - apply filter_length_le.
Qed.
End FilterClaims.

(* ================================================================== *)
(** ** The sort header and the clear-filters button *)
(* ================================================================== *)

Lemma SortKey_eqb_refl (k : SortKey) : SortKey_eqb k k = true.
Proof. destruct k; reflexivity. Qed.

Lemma handleSort_active (st : ViewState) :
  handleSort (sortKey st) st
  = setSortDirection (match sortDirection st with asc => desc | desc => asc end) st.
Proof. unfold handleSort. now rewrite SortKey_eqb_refl. Qed.

Lemma SortKey_eqb_neq (a b : SortKey) : a <> b -> SortKey_eqb a b = false.
Proof. destruct a, b; simpl; congruence. Qed.

(** A click on the header of another column selects that column in
    ascending direction, whatever the direction was, and leaves the filter
    criteria alone. *)
Theorem handleSort_selects_new_key (key : SortKey) (st : ViewState) :
  sortKey st <> key ->
  sortKey (handleSort key st) = key
  /\ sortDirection (handleSort key st) = asc
  /\ startDate (handleSort key st) = startDate st
  /\ endDate (handleSort key st) = endDate st
  /\ selectedWorkshop (handleSort key st) = selectedWorkshop st.
Proof.
  intros H. unfold handleSort. rewrite (SortKey_eqb_neq _ _ H). repeat split.
Qed.

Section ToggleClaims.
Variable Date_parse : string -> TimeValue.

(** C8.  A click on the header of the active sort key toggles the
    direction: the rows become the reversal of what they were, and a
    second click restores the state and therefore the rows.  From the
    ascending order, descending and then ascending again gives the
    ascending order back. *)
Theorem toggle_twice_restores_order
    (processedHistory : list HistoryEntryWithStatus) (st : ViewState) :
  let key := sortKey st in
  handleSort key (handleSort key st) = st
  /\ rows Date_parse processedHistory (handleSort key st)
     = rev (rows Date_parse processedHistory st)
  /\ rows Date_parse processedHistory (handleSort key (handleSort key st))
     = rows Date_parse processedHistory st
  /\ (forall l k,
        sortedHistory Date_parse l k desc = rev (sortedHistory Date_parse l k asc)
        /\ rev (sortedHistory Date_parse l k desc) = sortedHistory Date_parse l k asc).
Proof.
  cbv zeta.
  assert (handleSort (sortKey st) (handleSort (sortKey st) st) = st) as Hback.
  { rewrite (handleSort_active st).
    destruct st as [ee k d s u w]. unfold handleSort. simpl.
    rewrite SortKey_eqb_refl. destruct d; reflexivity. }
  split; [exact Hback|]. split; [|split].
  - rewrite handleSort_active. unfold rows, sortedHistory. simpl.
    destruct (sortDirection st); [reflexivity | now rewrite rev_involutive].
  - now rewrite Hback.
  - intros l k. unfold sortedHistory. split; [reflexivity | apply rev_involutive].
Qed.
End ToggleClaims.

(** C10.  The clear-filters button empties the two date bounds and sets
    the workshop selector to ['all']; the sort key, the sort direction and
    the entry being edited are what they were. *)
Theorem clearFilters_resets_filters_only (st : ViewState) :
  startDate (clearFilters st) = ""
  /\ endDate (clearFilters st) = ""
  /\ selectedWorkshop (clearFilters st) = "all"
  /\ sortKey (clearFilters st) = sortKey st
  /\ sortDirection (clearFilters st) = sortDirection st
  /\ editingEntry (clearFilters st) = editingEntry st.
Proof. repeat split. Qed.

(* ================================================================== *)
(** ** The edit button *)
(* ================================================================== *)

(** C6 (as amended).  For an editor the edit button of a row is rendered
    and it is enabled iff the row's [editCount] is below 2; with
    [editCount] at 2 or more it is disabled and a click changes nothing.
    For a viewer no edit button is rendered, whatever the count. *)
Theorem edit_button_enabled_below_quota (entry : HistoryEntryWithStatus) :
  (canEdit editor entry = true <-> editCount entry < 2)
  /\ (exists b, editCell editor entry = Some b
                /\ disabled b = (2 <=? editCount entry))
  /\ (2 <= editCount entry ->
      forall userRole st, clickEdit userRole entry st = st)
  /\ (editCount entry < 2 ->
      forall st, editingEntry (clickEdit editor entry st) = Some entry)
  /\ editCell viewer entry = None
  /\ canEdit viewer entry = false.
Proof.
  unfold clickEdit, canEdit, editCell. simpl. repeat split.
  - intros H. apply negb_true_iff, Z.leb_gt in H. exact H.
  - intros H. apply negb_true_iff, Z.leb_gt. exact H.
  - eexists. split; reflexivity.
  - intros H [|] st; [|reflexivity].
    apply Z.leb_le in H. now rewrite H.
  - intros H st. apply Z.leb_gt in H. now rewrite H.
Qed.

(** The count of remaining edits the title shows is [2 - editCount]; it
    is shown only on an enabled button, where it is positive. *)
Theorem remaining_edits_positive
    (entry : HistoryEntryWithStatus) (b : EditButton) :
  editCell editor entry = Some b ->
  (forall n, title b = EditsLeft n ->
             n = 2 - editCount entry /\ 0 < n /\ disabled b = false)
  /\ (title b = NoEditsLeft <-> disabled b = true).
Proof.
  unfold editCell. intros H.
  assert (b = {| disabled := 2 <=? editCount entry;
                 title := if 2 <=? editCount entry then NoEditsLeft
                          else EditsLeft (2 - editCount entry) |}) as ->
      by congruence.
  clear H. cbn [title disabled].
  destruct (2 <=? editCount entry) eqn:E.
  - split; [discriminate | tauto].
  - apply Z.leb_gt in E. split.
    + intros n Hn. assert (n = 2 - editCount entry) as -> by congruence.
      repeat split; lia.
    + split; discriminate.
Qed.

(* ================================================================== *)
(** ** Timeliness *)
(* ================================================================== *)



Lemma dateOf_is_calendar (t : Z) : CalendarDate (dateOf t) /\ Day (dateOf t) = Day t.
Proof.
  unfold CalendarDate, dateOf, Day. split.
  - apply Z.mod_mul. discriminate.
  - apply Z.div_mul. discriminate.
Qed.





(** The time of day does not count: later on the due date the entry is
    still on time, and from the first instant of the next day it is
    overdue by one day. *)
Remark timeliness_within_a_day :
  timeliness (Some 0) 30 (30 * msPerDay + 36000000) = (OnTime, 0)
  /\ timeliness (Some 36000000) 30 (31 * msPerDay) = (Overdue, 1)
  /\ timeliness (Some 0) 30 (31 * msPerDay + 1) = (Overdue, 1).
Proof. repeat split. Qed.

(* ================================================================== *)
(** ** The arrays of the store *)
(* ================================================================== *)

Lemma read_Some_lt (h : Store) (r : Ref) (a : list HistoryEntryWithStatus) :
  read h r = Some a -> (r < List.length h)%nat.
Proof.
  unfold read. intros H. apply nth_error_Some. congruence.
Qed.

Lemma read_alloc_old (h : Store) (r : Ref) (a b : list HistoryEntryWithStatus) :
  read h r = Some a -> read (h ++ [b]) r = Some a.
Proof.
  intros H. unfold read in *.
  rewrite nth_error_app1; [assumption | now apply (read_Some_lt h r a)].
Qed.

Lemma read_alloc_new (h : Store) (b : list HistoryEntryWithStatus) :
  read (h ++ [b]) (List.length h) = Some b.
Proof.
  unfold read. rewrite nth_error_app2 by lia. now rewrite Nat.sub_diag.
Qed.

Lemma write_alloc_new (h : Store) (a b : list HistoryEntryWithStatus) :
  write (h ++ [a]) (List.length h) b = h ++ [b].
Proof.
  induction h as [|x h IH]; simpl; [reflexivity | now rewrite IH].
Qed.

Lemma read_write_same (h : Store) (r : Ref) (a b : list HistoryEntryWithStatus) :
  read h r = Some a -> read (write h r b) r = Some b.
Proof.
  revert r. induction h as [|x h IH]; intros [|r] H; try discriminate; simpl.
  - reflexivity.
  - now apply IH.
Qed.

Lemma read_write_other (h : Store) (r q : Ref) (b : list HistoryEntryWithStatus) :
  q <> r -> read (write h r b) q = read h q.
Proof.
  revert r q. induction h as [|x h IH]; intros [|r] [|q] H; simpl;
    try reflexivity; try congruence.
  apply IH. congruence.
Qed.

(** [sort] and [reverse] update the array they are called on. *)
Lemma Array_sort_m_in_place
    (comparefn : HistoryEntryWithStatus -> HistoryEntryWithStatus -> option Z)
    (h : Store) (r : Ref) (a : list HistoryEntryWithStatus) :
  read h r = Some a ->
  Array_sort_m comparefn r h = Some (r, write h r (Array_sort comparefn a)).
Proof.
  intros H. unfold Array_sort_m, bind, get, put, ret. now rewrite H, H.
Qed.

Lemma Array_reverse_m_in_place
    (h : Store) (r : Ref) (a : list HistoryEntryWithStatus) :
  read h r = Some a ->
  Array_reverse_m r h = Some (r, write h r (rev a)).
Proof.
  intros H. unfold Array_reverse_m, bind, get, put, ret. now rewrite H, H.
Qed.

Example sort_updates_its_array :
  Array_sort_m (compareEntries Date_parse_iso KStatus) 0%nat [[h1; h2]]
  = Some (0%nat, [[h2; h1]]).
Proof. reflexivity. Qed.

Section StoreClaims.
Variable Date_parse : string -> TimeValue.

(** [filter] allocates its result. *)
Lemma filteredHistory_m_run (h : Store) (p : Ref)
    (l : list HistoryEntryWithStatus) (wk s u : string) :
  read h p = Some l ->
  filteredHistory_m Date_parse p wk s u h
  = Some (List.length h, h ++ [filteredHistory Date_parse l wk s u]).
Proof.
  intros H. unfold filteredHistory_m, Array_filter_m, bind, get, alloc.
  now rewrite H.
Qed.

(** The sort works on a copy: the array that is sorted and reversed in
    place is the one the spread allocated. *)
Lemma sortedHistory_m_run (h : Store) (f : Ref)
    (l : list HistoryEntryWithStatus) (k : SortKey) (d : SortDirection) :
  read h f = Some l ->
  sortedHistory_m Date_parse f k d h
  = Some (List.length h, h ++ [sortedHistory Date_parse l k d]).
Proof.
  intros H. unfold sortedHistory_m, Array_spread_m.
  unfold bind at 1. unfold bind at 1. unfold get at 1. rewrite H.
  unfold alloc. unfold bind at 1.
  rewrite (Array_sort_m_in_place _ _ _ l (read_alloc_new h l)).
  rewrite write_alloc_new. unfold bind, sortedHistory.
  destruct d.
  - reflexivity.
  - rewrite (Array_reverse_m_in_place _ _ _ (read_alloc_new h _)).
    now rewrite write_alloc_new.
Qed.

Lemma rows_m_run (h : Store) (p : Ref)
    (l : list HistoryEntryWithStatus) (st : ViewState) :
  read h p = Some l ->
  rows_m Date_parse p st h
  = Some ((List.length h, S (List.length h)),
          (h ++ [filteredHistory Date_parse l (selectedWorkshop st)
                   (startDate st) (endDate st)])
            ++ [rows Date_parse l st]).
Proof.
  intros H. unfold rows_m. unfold bind at 1.
  rewrite (filteredHistory_m_run h p l _ _ _ H).
  unfold bind at 1.
  rewrite (sortedHistory_m_run _ _ _ _ _ (read_alloc_new h _)).
  unfold ret, rows. rewrite length_app. simpl.
  now rewrite Nat.add_1_r.
Qed.

(** C9.  Filtering and sorting leave their input arrays as they were.
    Run on a store in which [p] holds the derived history [l], the
    filter, the sort and the two in sequence each return a reference that
    was not allocated before, holding the filtered (the sorted) list;
    every array of the store, and so the input, holds afterwards the
    elements it held before, in the same order, and after the sort the
    filtered array still holds the filter's result. *)
Theorem filter_and_sort_leave_inputs_unchanged
    (h : Store) (p : Ref) (l : list HistoryEntryWithStatus) (st : ViewState) :
  read h p = Some l ->
  (exists r h',
      filteredHistory_m Date_parse p
        (selectedWorkshop st) (startDate st) (endDate st) h = Some (r, h')
      /\ read h r = None
      /\ (forall q a, read h q = Some a -> read h' q = Some a)
      /\ read h' r = Some (filteredHistory Date_parse l
                             (selectedWorkshop st) (startDate st) (endDate st)))
  /\ (exists r h',
      sortedHistory_m Date_parse p (sortKey st) (sortDirection st) h = Some (r, h')
      /\ read h r = None
      /\ (forall q a, read h q = Some a -> read h' q = Some a)
      /\ read h' r = Some (sortedHistory Date_parse l (sortKey st) (sortDirection st)))
  /\ (exists filtered sorted h',
      rows_m Date_parse p st h = Some ((filtered, sorted), h')
      /\ read h filtered = None /\ read h sorted = None /\ filtered <> sorted
      /\ (forall q a, read h q = Some a -> read h' q = Some a)
      /\ read h' p = Some l
      /\ read h' filtered = Some (filteredHistory Date_parse l
                                    (selectedWorkshop st) (startDate st) (endDate st))
      /\ read h' sorted = Some (rows Date_parse l st)).
Proof.
  intros H.
  assert (forall n, (List.length h <= n)%nat -> read h n = None) as Hfresh
      by (intros n Hn; now apply nth_error_None).
  split; [|split].
  - eexists _, _. split; [apply (filteredHistory_m_run h p l _ _ _ H)|].
    split; [apply Hfresh; lia|]. split.
    + intros q a Hq. now apply read_alloc_old.
    + apply read_alloc_new.
  - eexists _, _. split; [apply (sortedHistory_m_run h p l _ _ H)|].
    split; [apply Hfresh; lia|]. split.
    + intros q a Hq. now apply read_alloc_old.
    + apply read_alloc_new.
  - eexists _, _, _. split; [apply (rows_m_run h p l st H)|].
    split; [apply Hfresh; lia|]. split; [apply Hfresh; lia|].
    split; [lia|].
    assert (forall q a, read h q = Some a ->
              read ((h ++ [filteredHistory Date_parse l (selectedWorkshop st)
                             (startDate st) (endDate st)])
                      ++ [rows Date_parse l st]) q = Some a) as Hold.
    { intros q a Hq. now apply read_alloc_old, read_alloc_old. }
    split; [exact Hold|]. split; [now apply Hold|]. split.
    + apply read_alloc_old, read_alloc_new.
    + replace (S (List.length h))
        with (List.length (h ++ [filteredHistory Date_parse l (selectedWorkshop st)
                                   (startDate st) (endDate st)]))
        by (rewrite length_app; simpl; lia).
      apply read_alloc_new.
Qed.
End StoreClaims.

(* ================================================================== *)
(** ** Sorting and filtering together *)
(* ================================================================== *)

Lemma StronglySorted_filter {A : Type} (R : A -> A -> Prop) (p : A -> bool)
    (l : list A) :
  StronglySorted R l -> StronglySorted R (filter p l).
Proof.
  induction 1 as [|x l Hs IH Hall]; simpl; [constructor|].
  destruct (p x); [|assumption].
  constructor; [assumption|].
  rewrite Forall_forall in Hall. apply Forall_forall.
  intros y Hy. apply Hall. now apply filter_In in Hy.
Qed.

Lemma filter_comm {A : Type} (p q : A -> bool) (l : list A) :
  filter p (filter q l) = filter q (filter p l).
Proof.
  induction l as [|x l IH]; simpl; [reflexivity|].
  destruct (p x) eqn:Hp, (q x) eqn:Hq; simpl; rewrite ?Hp, ?Hq, IH; reflexivity.
Qed.

Lemma Forall_filter_keep {A : Type} (P : A -> Prop) (p : A -> bool) (l : list A) :
  Forall P l -> Forall P (filter p l).
Proof.
  rewrite !Forall_forall. intros H x Hx. apply H. now apply filter_In in Hx.
Qed.

Section SortOn.
Context {A : Type}.
Variable comparefn : A -> A -> option Z.
Variable dom : A -> Prop.

Local Abbreviation cmp := (SortCompare comparefn).
Local Abbreviation le := (fun x y => cmp x y <= 0).

Hypothesis dom_total : forall x y, dom x -> dom y -> 0 < cmp x y -> cmp y x <= 0.
Hypothesis dom_trans :
  forall x y z, dom x -> dom y -> dom z -> cmp x y <= 0 -> cmp y z <= 0 -> cmp x z <= 0.

Lemma Forall_Array_sort (l : list A) : Forall dom l -> Forall dom (Array_sort comparefn l).
Proof.
  apply Permutation_Forall, Permutation_sym, Array_sort_perm.
Qed.

Lemma cmp_refl_on (x : A) : dom x -> cmp x x <= 0.
Proof.
  intros D. destruct (Z.lt_ge_cases 0 (cmp x x)) as [H|H]; [now apply dom_total | lia].
Qed.

Lemma tied_refl_on (x : A) : dom x -> tied comparefn x x = true.
Proof.
  intros D. unfold tied. pose proof (cmp_refl_on x D).
  apply andb_true_iff; split; now apply Z.leb_le.
Qed.

(** Stability on a list of comparable elements. *)
Lemma Array_sort_stable_on (p : A -> bool) (l : list A) :
  Forall dom l ->
  (forall x y, dom x -> dom y -> p x = true -> p y = true -> cmp x y <= 0) ->
  filter p (Array_sort comparefn l) = filter p l.
Proof.
  intros Dl Hp. induction Dl as [|x l Dx Dl IH]; simpl; [reflexivity|].
  destruct (p x) eqn:Hx.
  - rewrite insert_filter_in; [now rewrite IH | assumption |].
    intros y Hy Py. apply Hp; try assumption.
    pose proof (Forall_Array_sort l Dl) as Ds. rewrite Forall_forall in Ds.
    now apply Ds.
  - rewrite insert_filter_out by assumption. apply IH.
Qed.

Lemma Array_sort_classes_on (l : list A) (x : A) :
  Forall dom l -> dom x ->
  filter (tied comparefn x) (Array_sort comparefn l) = filter (tied comparefn x) l.
Proof.
  intros Dl Dx. apply Array_sort_stable_on; [assumption|].
  intros a b Da Db Ha Hb.
  apply andb_true_iff in Ha as [_ Ha], Hb as [Hb _].
  apply Z.leb_le in Ha, Hb. now apply dom_trans with x.
Qed.

(** Two lists of comparable elements that are in order and have the same
    classes of tied elements are equal. *)
Lemma sorted_classes_unique_on (o1 o2 : list A) :
  Forall dom o1 -> Forall dom o2 ->
  StronglySorted le o1 -> StronglySorted le o2 ->
  (forall x, dom x -> filter (tied comparefn x) o1 = filter (tied comparefn x) o2) ->
  o1 = o2.
Proof.
  revert o2. induction o1 as [|a t1 IH]; intros [|b t2] D1 D2 S1 S2 Hcl.
  - reflexivity.
  - inversion D2 as [|? ? Db _]; subst.
    specialize (Hcl b Db). simpl in Hcl. rewrite (tied_refl_on b Db) in Hcl.
    discriminate.
  - inversion D1 as [|? ? Da _]; subst.
    specialize (Hcl a Da). simpl in Hcl. rewrite (tied_refl_on a Da) in Hcl.
    discriminate.
  - inversion S1 as [|? ? S1' A1]; inversion S2 as [|? ? S2' A2]; subst.
    inversion D1 as [|? ? Da D1']; inversion D2 as [|? ? Db D2']; subst.
    rewrite Forall_forall in A1, A2.
    assert (a = b) as <-.
    { pose proof (Hcl a Da) as Ca. pose proof (Hcl b Db) as Cb. simpl in Ca, Cb.
      rewrite (tied_refl_on a Da) in Ca. rewrite (tied_refl_on b Db) in Cb.
      assert (tied comparefn b a = tied comparefn a b) as E
          by (unfold tied; apply andb_comm).
      rewrite E in Cb.
      destruct (tied comparefn a b) eqn:Tab; [now injection Ca|].
      exfalso.
      assert (In a t2) as Ia.
      { assert (In a (filter (tied comparefn a) t2)) as I
            by (rewrite <- Ca; now left).
        now apply filter_In in I. }
      assert (In b t1) as Ib.
      { assert (In b (filter (tied comparefn b) t1)) as I
            by (rewrite Cb; now left).
        now apply filter_In in I. }
      pose proof (A1 b Ib) as L1. pose proof (A2 a Ia) as L2. cbv beta in L1, L2.
      assert (tied comparefn a b = true)
        by (unfold tied; apply andb_true_iff; split; now apply Z.leb_le).
      congruence. }
    f_equal. apply IH; try assumption.
    intros x Dx. specialize (Hcl x Dx). simpl in Hcl.
    destruct (tied comparefn x a); [now injection Hcl | assumption].
Qed.

(** Sorting what a filter keeps is keeping what the filter keeps of the
    sorted list. *)
Lemma Array_sort_filter_on (p : A -> bool) (l : list A) :
  Forall dom l ->
  Array_sort comparefn (filter p l) = filter p (Array_sort comparefn l).
Proof.
  intros Dl.
  assert (Forall dom (filter p l)) as Dfl by now apply Forall_filter_keep.
  apply sorted_classes_unique_on.
  - now apply Forall_Array_sort.
  - now apply Forall_filter_keep, Forall_Array_sort.
  - now apply (Array_sort_sorted_on comparefn dom).
  - apply StronglySorted_filter. now apply (Array_sort_sorted_on comparefn dom).
  - intros x Dx.
    rewrite (Array_sort_classes_on (filter p l) x Dfl Dx).
    rewrite (filter_comm (tied comparefn x) p (Array_sort comparefn l)).
    rewrite (Array_sort_classes_on l x Dl Dx).
    apply filter_comm.
Qed.

End SortOn.

Lemma SortKey_eqb_eq (a b : SortKey) : SortKey_eqb a b = true <-> a = b.
Proof. destruct a, b; simpl; split; congruence. Qed.

Section RowsFacts.
Variable Date_parse : string -> TimeValue.

Local Abbreviation cmpOf := (fun k => SortCompare (compareEntries Date_parse k)).

(** The comparator of each key is total and transitive on the entries it
    can compare. *)
Lemma compareEntries_total_on (k : SortKey) (x y : HistoryEntryWithStatus) :
  comparable Date_parse k x -> comparable Date_parse k y ->
  0 < cmpOf k x y -> cmpOf k y x <= 0.
Proof.
  destruct k eqn:Ek; simpl; intros Dx Dy H;
    try (assert (isNameKey k = true) as Hk by (subst k; reflexivity);
         rewrite <- Ek in *;
         apply (byName_le Date_parse k y x Hk);
         assert (~ cmpOf k x y <= 0) as N by lia;
         rewrite (byName_le Date_parse k x y Hk) in N;
         rewrite String.compare_antisym;
         destruct (nameField k x ?= nameField k y)%string; simpl;
         try discriminate; elim N; discriminate).
  - destruct (byDate_valid Date_parse x y Dx Dy) as (tx & ty & Ex & Ey & E).
    destruct (byDate_valid Date_parse y x Dy Dx) as (ty' & tx' & Ey' & Ex' & E').
    rewrite E in H. rewrite E'. rewrite Ex in Ex'. rewrite Ey in Ey'.
    injection Ex' as <-. injection Ey' as <-. lia.
  - now apply byStatus_total.
Qed.

Lemma compareEntries_trans_on (k : SortKey) (x y z : HistoryEntryWithStatus) :
  comparable Date_parse k x -> comparable Date_parse k y ->
  comparable Date_parse k z ->
  cmpOf k x y <= 0 -> cmpOf k y z <= 0 -> cmpOf k x z <= 0.
Proof.
  destruct k eqn:Ek; simpl; intros Dx Dy Dz;
    try (assert (isNameKey k = true) as Hk by (subst k; reflexivity);
         rewrite <- Ek in *;
         rewrite !(byName_le Date_parse k _ _ Hk);
         apply String_compare_not_Gt_trans).
  - destruct (byDate_valid Date_parse x y Dx Dy) as (tx & ty & Ex & Ey & ->).
    destruct (byDate_valid Date_parse y z Dy Dz) as (ty' & tz & Ey' & Ez & ->).
    destruct (byDate_valid Date_parse x z Dx Dz) as (tx' & tz' & Ex' & Ez' & ->).
    rewrite Ex in Ex'. rewrite Ey in Ey'. rewrite Ez in Ez'.
    injection Ex' as <-. injection Ey' as <-. injection Ez' as <-. lia.
  - apply byStatus_trans.
Qed.

Lemma filteredHistory_no_criteria (l : list HistoryEntryWithStatus) :
  filteredHistory Date_parse l "all" "" "" = l.
Proof.
  unfold filteredHistory.
  induction l as [|e l' IH]; simpl; [reflexivity | now rewrite IH].
Qed.

Lemma rows_clearFilters (l : list HistoryEntryWithStatus) (st : ViewState) :
  rows Date_parse l (clearFilters st)
  = sortedHistory Date_parse l (sortKey st) (sortDirection st).
Proof.
  unfold rows, clearFilters. simpl. now rewrite filteredHistory_no_criteria.
Qed.

Lemma rows_perm (l : list HistoryEntryWithStatus) (st : ViewState) :
  Permutation (rows Date_parse l st)
    (filteredHistory Date_parse l (selectedWorkshop st) (startDate st) (endDate st)).
Proof.
  unfold rows, sortedHistory. destruct (sortDirection st).
  - apply Array_sort_perm.
  - eapply perm_trans; [apply Permutation_sym, Permutation_rev | apply Array_sort_perm].
Qed.

Lemma rows_In (l : list HistoryEntryWithStatus) (st : ViewState)
    (e : HistoryEntryWithStatus) :
  In e (rows Date_parse l st) <->
  In e l /\ keepEntry Date_parse (selectedWorkshop st) (startDate st) (endDate st) e
            = true.
Proof.
  rewrite <- (filter_In (keepEntry Date_parse (selectedWorkshop st)
                          (startDate st) (endDate st)) e l).
  split; apply Permutation_in;
    [apply rows_perm | apply Permutation_sym, rows_perm].
Qed.

(** The table shows exactly the entries that pass the filter: the rows are
    a rearrangement of the filtered history, whatever the sort key and the
    direction, and the table is empty (the message is shown instead)
    exactly when no entry of the history passes. *)
Theorem rows_are_the_filtered_entries
    (l : list HistoryEntryWithStatus) (st : ViewState) :
  let keep := keepEntry Date_parse (selectedWorkshop st) (startDate st) (endDate st) in
  Permutation (rows Date_parse l st) (filter keep l)
  /\ (forall e, In e (rows Date_parse l st) <-> In e l /\ keep e = true)
  /\ (List.length (rows Date_parse l st) <= List.length l)%nat
  /\ (rows Date_parse l st = [] <-> forall e, In e l -> keep e = false).
Proof.
  cbv zeta. split; [apply rows_perm|]. split; [apply rows_In|]. split.
  - rewrite (Permutation_length (rows_perm l st)). apply filter_length_le.
  - split.
    + intros E e He. apply not_true_is_false. intros K.
      assert (In e (rows Date_parse l st)) as I by (apply rows_In; now split).
      rewrite E in I. exact I.
    + intros H. destruct (rows Date_parse l st) as [|e r] eqn:E; [reflexivity|].
      assert (In e (rows Date_parse l st)) as I by (rewrite E; now left).
      apply rows_In in I as [I K]. rewrite (H e I) in K. discriminate.
Qed.

(** The export button hands [exportToExcel] the rows of the table, and
    only when there is one: the list it passes is never empty and is a
    rearrangement of the entries that pass the filter; with no entry
    passing, the click calls nothing.  The click leaves the state alone. *)
Theorem export_hands_over_the_rows (p : Props) (st : ViewState) :
  fst (dispatch Date_parse p st ClickExport) = st
  /\ (forall c, In c (snd (dispatch Date_parse p st ClickExport)) ->
        exists data, c = exportToExcel data
          /\ data = rows Date_parse (p_processedHistory p) st /\ data <> []
          /\ Permutation data
               (filteredHistory Date_parse (p_processedHistory p)
                  (selectedWorkshop st) (startDate st) (endDate st)))
  /\ (snd (dispatch Date_parse p st ClickExport) = [] <->
      filteredHistory Date_parse (p_processedHistory p)
        (selectedWorkshop st) (startDate st) (endDate st) = []).
Proof.
  unfold dispatch.
  pose proof (rows_perm (p_processedHistory p) st) as Hperm.
  destruct (rows Date_parse (p_processedHistory p) st) as [|e r] eqn:E; simpl.
  - split; [reflexivity|]. split; [intros c []|].
    split; [intros _|reflexivity]. now apply Permutation_nil.
  - split; [reflexivity|]. split.
    + intros c [<-|[]]. exists (e :: r). repeat split; [discriminate | assumption].
    + split; [discriminate|]. intros F. rewrite F in Hperm.
      apply Permutation_sym, Permutation_nil in Hperm. discriminate.
Qed.

(** After the clear-filters button every entry of the history is shown:
    the rows are the whole history in the current sort order. *)
Theorem clearFilters_shows_every_entry
    (l : list HistoryEntryWithStatus) (st : ViewState) :
  rows Date_parse l (clearFilters st)
  = sortedHistory Date_parse l (sortKey st) (sortDirection st)
  /\ Permutation (rows Date_parse l (clearFilters st)) l
  /\ List.length (rows Date_parse l (clearFilters st)) = List.length l.
Proof.
  pose proof (rows_clearFilters l st) as E.
  assert (Permutation (rows Date_parse l (clearFilters st)) l) as Hp.
  { rewrite E. unfold sortedHistory. destruct (sortDirection st).
    - apply Array_sort_perm.
    - eapply perm_trans; [apply Permutation_sym, Permutation_rev | apply Array_sort_perm]. }
  split; [exact E|]. split; [exact Hp | now apply Permutation_length].
Qed.

(** Filtering and sorting commute on a history the sort key can compare
    (for the date key: whose dates are valid).  The rows under a filter are
    the rows without any filter, with the entries that fail left out: a
    filter never changes the relative order of the rows that stay. *)
Theorem filter_keeps_the_order_of_rows
    (l : list HistoryEntryWithStatus) (st : ViewState) :
  Forall (comparable Date_parse (sortKey st)) l ->
  rows Date_parse l st
  = filter (keepEntry Date_parse (selectedWorkshop st) (startDate st) (endDate st))
      (rows Date_parse l (clearFilters st))
  /\ (forall wk s u k d,
        Forall (comparable Date_parse k) l ->
        sortedHistory Date_parse (filteredHistory Date_parse l wk s u) k d
        = filteredHistory Date_parse (sortedHistory Date_parse l k d) wk s u).
Proof.
  assert (forall wk s u k d,
             Forall (comparable Date_parse k) l ->
             sortedHistory Date_parse (filteredHistory Date_parse l wk s u) k d
             = filteredHistory Date_parse (sortedHistory Date_parse l k d) wk s u)
    as Hcomm.
  { intros wk s u k d Dl. unfold sortedHistory, filteredHistory.
    rewrite (Array_sort_filter_on (compareEntries Date_parse k)
               (comparable Date_parse k)
               (compareEntries_total_on k) (compareEntries_trans_on k) _ l Dl).
    destruct d; [reflexivity | now rewrite filter_rev]. }
  intros Dl. split; [|exact Hcomm].
  rewrite rows_clearFilters. unfold rows. now rewrite Hcomm.
Qed.

(** The view the component opens with: no filter, maintenance date,
    descending.  On a history whose dates are valid the rows are all the
    entries, the latest maintenance first. *)
Theorem initial_rows_latest_first (l : list HistoryEntryWithStatus) :
  Forall (validDate Date_parse) l ->
  StronglySorted (fun a b => notLater Date_parse b a) (rows Date_parse l initialState)
  /\ Permutation (rows Date_parse l initialState) l.
Proof.
  intros Dl.
  assert (rows Date_parse l initialState
          = rev (Array_sort (compareEntries Date_parse KMaintenanceDate) l)) as ->.
  { unfold rows. simpl. now rewrite filteredHistory_no_criteria. }
  split.
  - apply (StronglySorted_rev (notLater Date_parse)).
    apply StronglySorted_weaken with (R := fun a b => cmpOf KMaintenanceDate a b <= 0).
    + apply (Array_sort_sorted_on _ (comparable Date_parse KMaintenanceDate));
        [apply compareEntries_total_on | apply compareEntries_trans_on | exact Dl].
    + intros a b H ta tb Ha Hb.
      unfold SortCompare, compareEntries, getTime_sub in H.
      rewrite Ha, Hb in H. lia.
  - eapply perm_trans; [apply Permutation_sym, Permutation_rev | apply Array_sort_perm].
Qed.

(** The icon of a header tells the order of the rows: the up chevron
    stands on the column the rows are sorted by in ascending order, the
    down chevron on the column they are sorted by and then reversed, and
    the muted chevron on every other column.  After a click on a header it
    is the active one. *)
Theorem header_icon_tells_the_order
    (l : list HistoryEntryWithStatus) (st : ViewState) (k : SortKey) :
  let filtered :=
    filteredHistory Date_parse l (selectedWorkshop st) (startDate st) (endDate st) in
  (SortableHeader st k = ChevronUp ->
   rows Date_parse l st = Array_sort (compareEntries Date_parse k) filtered)
  /\ (SortableHeader st k = ChevronDown ->
      rows Date_parse l st = rev (Array_sort (compareEntries Date_parse k) filtered))
  /\ (SortableHeader st k = ChevronDownMuted <-> sortKey st <> k)
  /\ SortableHeader (handleSort k st) k <> ChevronDownMuted
  /\ (SortableHeader (handleSort k st) k = ChevronDown <->
      SortableHeader st k = ChevronUp).
Proof.
  cbv zeta. unfold SortableHeader, rows, sortedHistory, handleSort.
  destruct (SortKey_eqb (sortKey st) k) eqn:E.
  - apply SortKey_eqb_eq in E. subst k. simpl. rewrite SortKey_eqb_refl.
    destruct (sortDirection st); simpl;
      repeat split; try discriminate; try reflexivity; try congruence;
      intros H; now elim H.
  - assert (sortKey st <> k) as Hne
        by (intros F; apply SortKey_eqb_eq in F; congruence).
    simpl. rewrite SortKey_eqb_refl.
    repeat split; try discriminate; try reflexivity; try congruence.
Qed.
End RowsFacts.

Section RangeFacts.
Variable Date_parse : string -> TimeValue.

(** Widening the date range never removes a row.  With both bounds given
    and valid, an entry kept under a range is kept under every range that
    starts no later and ends no earlier, and under the range with either
    bound, or both, left empty. *)
Theorem wider_range_keeps_more
    (l : list HistoryEntryWithStatus) (wk s u s' u' : string) (lo hi lo' hi' : Z) :
  Date_parse s = Some lo -> Date_parse u = Some hi ->
  Date_parse s' = Some lo' -> Date_parse u' = Some hi' ->
  s <> "" -> u <> "" -> lo' <= lo -> hi <= hi' ->
  incl (filteredHistory Date_parse l wk s u) (filteredHistory Date_parse l wk s' u')
  /\ incl (filteredHistory Date_parse l wk s u) (filteredHistory Date_parse l wk "" u')
  /\ incl (filteredHistory Date_parse l wk s u) (filteredHistory Date_parse l wk s' "")
  /\ incl (filteredHistory Date_parse l wk s u) (filteredHistory Date_parse l wk "" "").
Proof.
  intros Hs Hu Hs' Hu' Ns Nu Hlo Hhi.
  assert (forall a b e,
             (a = s' \/ a = "") -> (b = u' \/ b = "") ->
             keepEntry Date_parse wk s u e = true ->
             keepEntry Date_parse wk a b e = true) as Hkeep.
  { intros a b e Ha Hb K.
    rewrite keepEntry_split, andb_true_iff in K. destruct K as [Kw Kd].
    rewrite keepEntry_split, andb_true_iff. split; [assumption|].
    destruct (Date_parse (maintenanceDate e)) as [t|] eqn:Ht;
      [|now apply keepEntry_invalid_date].
    pose proof (proj1 (keepEntry_dates Date_parse s u e t Ht) Kd) as [K1 K2].
    specialize (K1 lo Ns Hs). specialize (K2 hi Nu Hu).
    apply (keepEntry_dates Date_parse a b e t Ht). split.
    - intros x Nx Hx. destruct Ha as [->| ->]; [|now elim Nx].
      rewrite Hs' in Hx. injection Hx as <-. lia.
    - intros x Nx Hx. destruct Hb as [->| ->]; [|now elim Nx].
      rewrite Hu' in Hx. injection Hx as <-. lia. }
  unfold incl, filteredHistory.
  repeat split; intros e He; apply filter_In in He as [Hin K];
    apply filter_In; (split; [assumption|]); apply Hkeep; auto.
Qed.
End RangeFacts.

(* ================================================================== *)
(** ** Sequences of events *)
(* ================================================================== *)

Lemma canEdit_true (userRole : UserRole) (entry : HistoryEntryWithStatus) :
  canEdit userRole entry = true <-> userRole = editor /\ editCount entry < 2.
Proof.
  unfold canEdit, editCell. destruct userRole; simpl.
  - rewrite negb_true_iff, Z.leb_gt. intuition.
  - split; [discriminate | intros [H _]; discriminate].
Qed.

Lemma handleSort_editingEntry (k : SortKey) (st : ViewState) :
  editingEntry (handleSort k st) = editingEntry st.
Proof. unfold handleSort. destruct (SortKey_eqb (sortKey st) k); reflexivity. Qed.

Lemma updates_app (c1 c2 : list Call) :
  updates (c1 ++ c2) = (updates c1 + updates c2)%nat.
Proof. unfold updates. now rewrite filter_app, length_app. Qed.

Section RunFacts.
Variable Date_parse : string -> TimeValue.

Lemma run_cons (p : Props) (ev : Event) (evs : list (Props * Event))
    (st : ViewState) :
  run Date_parse ((p, ev) :: evs) st
  = (fst (run Date_parse evs (fst (dispatch Date_parse p st ev))),
     snd (dispatch Date_parse p st ev)
       ++ snd (run Date_parse evs (fst (dispatch Date_parse p st ev)))).
Proof.
  simpl. destruct (dispatch Date_parse p st ev) as [st1 c1]. simpl.
  destruct (run Date_parse evs st1) as [st2 c2]. reflexivity.
Qed.

(** One event rendered for a viewer: the entry being edited stays and
    nothing is updated. *)
Lemma dispatch_viewer (p : Props) (st : ViewState) (ev : Event) :
  p_userRole p = viewer ->
  editingEntry (fst (dispatch Date_parse p st ev)) = editingEntry st
  /\ updates (snd (dispatch Date_parse p st ev)) = O.
Proof.
  intros Hv. unfold dispatch. rewrite Hv.
  destruct ev; simpl; rewrite ?handleSort_editingEntry; try (split; reflexivity).
  - destruct (rows Date_parse (p_processedHistory p) st); split; reflexivity.
  - destruct (nth_error _ row); split; reflexivity.
  - assert (editFormShown viewer st = false) as ->
        by (unfold editFormShown; destruct (editingEntry st); reflexivity).
    split; reflexivity.
  - assert (editFormShown viewer st = false) as ->
        by (unfold editFormShown; destruct (editingEntry st); reflexivity).
    split; reflexivity.
Qed.

(** A viewer cannot edit.  Through a sequence of events on a component
    that is rendered for a viewer throughout, from any state, the entry
    being edited never changes and [onUpdateHistory] is never called; from
    the initial state the edit form never opens. *)
Theorem viewer_never_updates (evs : list (Props * Event)) (st : ViewState) :
  (forall p ev, In (p, ev) evs -> p_userRole p = viewer) ->
  editingEntry (fst (run Date_parse evs st)) = editingEntry st
  /\ (forall historyId newDate,
        ~ In (onUpdateHistory historyId newDate) (snd (run Date_parse evs st)))
  /\ (st = initialState ->
      forall userRole, editFormShown userRole (fst (run Date_parse evs st)) = false).
Proof.
  intros Hv.
  assert (editingEntry (fst (run Date_parse evs st)) = editingEntry st
          /\ updates (snd (run Date_parse evs st)) = O) as [He Hu].
  { revert st. induction evs as [|[p ev] evs IH]; intros st; [split; reflexivity|].
    rewrite run_cons. simpl.
    destruct (dispatch_viewer p st ev (Hv p ev (or_introl eq_refl))) as [E1 U1].
    destruct (IH (fun q e H => Hv q e (or_intror H))
                (fst (dispatch Date_parse p st ev))) as [E2 U2].
    split; [congruence | rewrite updates_app; lia]. }
  split; [exact He|]. split.
  - intros historyId newDate Hin. unfold updates in Hu.
    assert (In (onUpdateHistory historyId newDate)
              (filter isUpdate (snd (run Date_parse evs st)))) as F
        by (apply filter_In; split; [assumption | reflexivity]).
    destruct (filter isUpdate (snd (run Date_parse evs st))); [exact F | discriminate].
  - intros -> userRole. unfold editFormShown. rewrite He. reflexivity.
Qed.

Lemma dispatch_editable (shown : list Props) (p : Props) (st : ViewState)
    (ev : Event) :
  (forall e, editingEntry st = Some e -> editable shown e) ->
  forall e, editingEntry (fst (dispatch Date_parse p st ev)) = Some e ->
            editable (shown ++ [p]) e.
Proof.
  intros Inv e.
  assert (forall x, editable shown x -> editable (shown ++ [p]) x) as Hmono.
  { intros x (Hq & q & Hin & Hr & Hx). split; [assumption|].
    exists q. repeat split; try assumption. apply in_or_app. now left. }
  unfold dispatch. destruct ev; simpl; rewrite ?handleSort_editingEntry;
    try (intros H; apply Hmono, Inv, H).
  - destruct (rows Date_parse (p_processedHistory p) st);
      intros H; apply Hmono, Inv, H.
  - destruct (nth_error (rows Date_parse (p_processedHistory p) st) row)
      as [entry|] eqn:Hrow; [|intros H; apply Hmono, Inv, H].
    unfold clickEdit. simpl.
    destruct (canEdit (p_userRole p) entry) eqn:Hc; [|intros H; apply Hmono, Inv, H].
    simpl. intros [= <-]. apply canEdit_true in Hc as [Hr Hq].
    split; [assumption|]. exists p. repeat split.
    + apply in_or_app. right. now left.
    + assumption.
    + apply nth_error_In in Hrow. now apply rows_In in Hrow.
  - destruct (editFormShown (p_userRole p) st); simpl;
      [discriminate | intros H; apply Hmono, Inv, H].
  - destruct (editFormShown (p_userRole p) st); simpl;
      [discriminate | intros H; apply Hmono, Inv, H].
Qed.

(** The entry in the edit form was editable when it was chosen.  After
    any sequence of events from the initial state, an entry being edited
    has an [editCount] below 2 and is an entry of a history that was shown
    to an editor during the sequence. *)
Theorem editing_entry_is_editable
    (evs : list (Props * Event)) (e : HistoryEntryWithStatus) :
  editingEntry (fst (run Date_parse evs initialState)) = Some e ->
  editCount e < 2
  /\ exists p ev, In (p, ev) evs /\ p_userRole p = editor
                  /\ In e (p_processedHistory p).
Proof.
  assert (forall evs st shown,
             (forall x, editingEntry st = Some x -> editable shown x) ->
             forall x, editingEntry (fst (run Date_parse evs st)) = Some x ->
                       editable (shown ++ map fst evs) x) as Hrun.
  { clear. induction evs as [|[p ev] evs IH]; intros st shown Inv x Hx.
    - simpl in *. rewrite app_nil_r. now apply Inv.
    - rewrite run_cons in Hx. simpl in Hx.
      simpl. replace (shown ++ p :: map fst evs)
        with ((shown ++ [p]) ++ map fst evs) by (rewrite <- app_assoc; reflexivity).
      apply (IH (fst (dispatch Date_parse p st ev))); [|assumption].
      now apply dispatch_editable. }
  intros He.
  destruct (Hrun evs initialState [] ltac:(discriminate) e He)
    as (Hq & p & Hin & Hr & Hx).
  split; [assumption|]. simpl in Hin. apply in_map_iff in Hin as ([q ev] & <- & Hin).
  exists q, ev. repeat split; assumption.
Qed.

Lemma opened_cons (p : Props) (ev : Event) (evs : list (Props * Event))
    (st : ViewState) :
  opened Date_parse ((p, ev) :: evs) st
  = (opened Date_parse [(p, ev)] st
     + opened Date_parse evs (fst (dispatch Date_parse p st ev)))%nat.
Proof. simpl. lia. Qed.

Lemma dispatch_count (p : Props) (st : ViewState) (ev : Event) :
  (updates (snd (dispatch Date_parse p st ev))
   + editing (fst (dispatch Date_parse p st ev))
   <= opened Date_parse [(p, ev)] st + editing st)%nat.
Proof.
  unfold dispatch, opened, editing. destruct ev; simpl;
    rewrite ?handleSort_editingEntry; try lia.
  - destruct (rows Date_parse (p_processedHistory p) st); simpl; lia.
  - destruct (nth_error (rows Date_parse (p_processedHistory p) st) row)
      as [entry|]; simpl; [|lia].
    unfold clickEdit. destruct (canEdit (p_userRole p) entry); simpl; [|lia].
    unfold editing. simpl. destruct (editingEntry st); lia.
  - unfold editFormShown, editing.
    destruct (editingEntry st) eqn:E, (p_userRole p); simpl; rewrite ?E; simpl; lia.
  - unfold editFormShown, editing.
    destruct (editingEntry st) eqn:E, (p_userRole p); simpl; rewrite ?E; simpl; lia.
Qed.

(** One update per opening of the edit form.  [handleSaveEdit] closes the
    form, so along any sequence of events the calls of [onUpdateHistory],
    plus one if the form is still open, are at most the clicks on an
    enabled edit button, plus one if the form was open at the start. *)
Theorem one_update_per_opening (evs : list (Props * Event)) (st : ViewState) :
  (updates (snd (run Date_parse evs st)) + editing (fst (run Date_parse evs st))
   <= opened Date_parse evs st + editing st)%nat
  /\ (forall p historyId newDate,
        editFormShown (p_userRole p)
          (fst (dispatch Date_parse p st (ModalSave historyId newDate))) = false).
Proof.
  split.
  - revert st. induction evs as [|[p ev] evs IH]; intros st; [simpl; lia|].
    rewrite run_cons. simpl fst. simpl snd. rewrite updates_app.
    pose proof (dispatch_count p st ev) as H1.
    pose proof (IH (fst (dispatch Date_parse p st ev))) as H2.
    rewrite opened_cons. lia.
  - intros p historyId newDate. unfold dispatch, editFormShown.
    destruct (editingEntry st) eqn:E, (p_userRole p); simpl; rewrite ?E; reflexivity.
Qed.
End RunFacts.

(* ================================================================== *)
(** ** The sample data, run *)
(* ================================================================== *)

Example sort_by_status_sample :
  map id (sortedHistory Date_parse_iso [h1; h2; h3; h4; h5] KStatus asc)
  = ["h3"; "h2"; "h5"; "h1"; "h4"].
Proof. reflexivity. Qed.

Example sort_by_date_sample :
  map id (sortedHistory Date_parse_iso [h5; h2; h4; h1; h3] KMaintenanceDate asc)
  = ["h1"; "h2"; "h3"; "h4"; "h5"].
Proof. reflexivity. Qed.

(** An entry dated on the end date itself, at 10:00 UTC: its calendar day
    is the day of the bound, and the filter drops it. *)
Lemma entry_later_on_end_date_is_dropped :
  Date_parse_iso (maintenanceDate h2) = Some 1706695200000
  /\ Date_parse_iso "2024-01-31" = Some 1706659200000
  /\ Day 1706695200000 = Day 1706659200000
  /\ keepEntry Date_parse_iso "all" "" "2024-01-31" h2 = false
  /\ filteredHistory Date_parse_iso [h2] "all" "" "2024-01-31" = [].
Proof. repeat split. Qed.

(** An entry dated by the same date-only string as both bounds is kept. *)
Lemma entry_on_both_bounds_is_kept :
  keepEntry Date_parse_iso "all" "2024-01-31" "2024-01-31" h1 = true.
Proof.
  apply (date_filter_compares_time_values Date_parse_iso
           "all" "2024-01-31" "2024-01-31" h1 1706659200000 eq_refl);
    reflexivity.
Defined.

Lemma unknown_workshop_gives_empty :
  filteredHistory Date_parse_iso [h1; h2; h3; h4; h5] "w9" "" "" = [].
Proof.
  apply (workshop_filter Date_parse_iso [h1; h2; h3; h4; h5] "w9" "" "").
  - discriminate.
  - intros e [<-|[<-|[<-|[<-|[<-|[]]]]]]; discriminate.
Defined.

Lemma start_after_end_sample :
  filteredHistory Date_parse_iso [h1; h2; h3; h4; h5] "all" "2024-03-01" "2024-01-31"
  = [].
Proof.
  apply (inverted_bounds_give_empty Date_parse_iso [h1; h2; h3; h4; h5]
           "all" "2024-03-01" "2024-01-31" 1709251200000 1706659200000);
    try discriminate; try reflexivity.
  repeat constructor; discriminate.
Defined.

(** An entry whose date is not a date compares false with both bounds:
    it is kept under bounds that no date satisfies. *)
Lemma invalid_date_survives_inverted_bounds :
  Date_parse_iso "2024-03-01" = Some 1709251200000
  /\ Date_parse_iso "2024-01-31" = Some 1706659200000
  /\ 1706659200000 < 1709251200000
  /\ Date_parse_iso (maintenanceDate h6) = None
  /\ filteredHistory Date_parse_iso [h6] "all" "2024-03-01" "2024-01-31" = [h6].
Proof. repeat split. Qed.

(** Section 8 of the spec: interval 30 days, entry of 2024-01-01, evaluated
    on 2024-02-05: due on 2024-01-31, overdue by 5 days. *)
Example spec_example_overdue_5 :
  map (fun e => (status e, overdueDays e))
    (calculateHistoryTimeliness Date_parse_iso 1707091200000 [raw1] [W1])
  = [(Overdue, 5)].
Proof. reflexivity. Qed.


(** A viewer gets no edit button on a record that was never edited. *)
Lemma viewer_cannot_edit :
  ~ (forall userRole entry, canEdit userRole entry = true <-> editCount entry < 2).
Proof.
  intros H. specialize (H viewer h1).
  assert (canEdit viewer h1 = true) as C by (apply H; reflexivity).
  discriminate C.
Qed.

Lemma rows_of_sample_store :
  exists filtered sorted h',
    rows_m Date_parse_iso 0%nat initialState [[h1; h2; h3]]
    = Some ((filtered, sorted), h')
    /\ read h' 0%nat = Some [h1; h2; h3]
    /\ read h' sorted = Some [h3; h2; h1].
Proof.
  destruct (filter_and_sort_leave_inputs_unchanged Date_parse_iso
              [[h1; h2; h3]] 0%nat [h1; h2; h3] initialState eq_refl)
    as (_ & _ & f & s & h' & Hrun & _ & _ & _ & _ & Hp & _ & Hs).
  exists f, s, h'. repeat split; assumption.
Defined.

Lemma sort_by_date_sample_chronological :
  StronglySorted (notLater Date_parse_iso)
    (sortedHistory Date_parse_iso [h5; h2; h4; h1; h3] KMaintenanceDate asc).
Proof.
  apply (sort_by_date_chronological Date_parse_iso [h5; h2; h4; h1; h3]).
  repeat constructor; discriminate.
Defined.

Lemma sort_by_name_sample :
  StronglySorted
    (fun a b => (nameField KWorkshopName a ?= nameField KWorkshopName b)%string <> Gt)
    (sortedHistory Date_parse_iso [h2; h1; h4; h3] KWorkshopName asc).
Proof.
  apply (sort_by_name_lexicographic Date_parse_iso [h2; h1; h4; h3] KWorkshopName).
  reflexivity.
Defined.

Lemma click_on_status_header :
  sortKey (handleSort KStatus initialState) = KStatus
  /\ sortDirection (handleSort KStatus initialState) = asc.
Proof.
  destruct (handleSort_selects_new_key KStatus initialState) as (H1 & H2 & _).
  - discriminate.
  - split; assumption.
Defined.

Lemma one_edit_left_on_h2 :
  editCell editor h2 = Some {| disabled := false; title := EditsLeft 1 |}
  /\ 0 < 1.
Proof.
  split; [reflexivity|].
  destruct (remaining_edits_positive h2 _ eq_refl) as [H _].
  destruct (H 1 eq_refl) as (_ & P & _). exact P.
Defined.

Lemma status_order_of_sample_determined :
  [h3; h2; h5; h1; h4] = sortedHistory Date_parse_iso [h1; h2; h3; h4; h5] KStatus asc.
Proof.
  apply (sort_by_status_determined Date_parse_iso).
  apply (Array_sort_StableSorted (compareEntries Date_parse_iso KStatus)).
  - apply byStatus_total.
  - apply byStatus_trans.
Defined.

Lemma filtered_rows_of_sample :
  rows Date_parse_iso [h5; h2; h4; h1; h3] (setSelectedWorkshop "w1" initialState)
  = filter (keepEntry Date_parse_iso "w1" "" "")
      (rows Date_parse_iso [h5; h2; h4; h1; h3]
         (clearFilters (setSelectedWorkshop "w1" initialState))).
Proof.
  apply (filter_keeps_the_order_of_rows Date_parse_iso [h5; h2; h4; h1; h3]
           (setSelectedWorkshop "w1" initialState)).
  all: apply Forall_forall; intros e He;
    repeat (destruct He as [<-|He]; [intros H; vm_compute in H; discriminate H|]);
    destruct He.
Defined.

Lemma initial_rows_of_sample :
  StronglySorted (fun a b => notLater Date_parse_iso b a)
    (rows Date_parse_iso [h5; h2; h4; h1; h3] initialState).
Proof.
  apply (initial_rows_latest_first Date_parse_iso [h5; h2; h4; h1; h3]).
  repeat constructor; discriminate.
Defined.

Lemma viewer_clicks_and_saves :
  ~ In (onUpdateHistory "h2" "2024-02-01")
      (snd (run Date_parse_iso
              [(forViewer, ClickEditRow 1); (forViewer, ModalSave "h2" "2024-02-01")]
              initialState)).
Proof.
  apply (viewer_never_updates Date_parse_iso
           [(forViewer, ClickEditRow 1); (forViewer, ModalSave "h2" "2024-02-01")]
           initialState).
  intros p ev [[= <- <-]|[[= <- <-]|[]]]; reflexivity.
Defined.

Lemma editor_opens_second_row :
  editingEntry (fst (run Date_parse_iso [(forEditor, ClickEditRow 1)] initialState))
  = Some h2
  /\ editCount h2 < 2.
Proof.
  split; [reflexivity|].
  apply (editing_entry_is_editable Date_parse_iso [(forEditor, ClickEditRow 1)] h2).
  reflexivity.
Defined.

Example editor_saves_once :
  run Date_parse_iso
    [(forEditor, ClickEditRow 1); (forEditor, ModalSave "h2" "2024-02-01");
     (forEditor, ModalSave "h2" "2024-02-02")]
    initialState
  = (initialState, [onUpdateHistory "h2" "2024-02-01"]).
Proof. reflexivity. Qed.

Lemma wider_range_on_sample :
  incl (filteredHistory Date_parse_iso [h1; h2; h3; h4; h5] "all"
          "2024-02-15" "2024-03-01")
       (filteredHistory Date_parse_iso [h1; h2; h3; h4; h5] "all"
          "2024-01-31" "2024-03-10").
Proof.
  apply (wider_range_keeps_more Date_parse_iso [h1; h2; h3; h4; h5] "all"
           "2024-02-15" "2024-03-01" "2024-01-31" "2024-03-10"
           1707955200000 1709251200000 1706659200000 1710028800000);
    try reflexivity; try discriminate; lia.
Defined.
